(** * zim_to_corpus: HTML section enumeration and the batch conversion script

    A shallow embedding of [zim_to_corpus/html.py] and of
    [scripts/extract_zim_htmls.py], with the properties of the
    specification stated and proved (or refuted) over it. *)

From Stdlib Require Import Ascii String.
From stdpp Require Import gmap strings list fin_maps sorting.

Set Warnings "-register-all".

(** ** Regular expressions (the fragment of Python's [re] the code uses)

    [re.compile('[hH][0-9]+')] and [re.compile('[ou]l')] are built from
    character classes, literals, concatenation and [+].  The matcher works by
    derivatives, so the syntax also has the empty language, the empty word,
    alternation and the star that derivatives produce. *)

Module Re.

Inductive class_item : Type :=
| One (c : ascii)
| Range (lo hi : ascii).

Definition in_item (c : ascii) (it : class_item) : bool :=
  match it with
  | One c0 => Ascii.eqb c c0
  | Range lo hi =>
      ((nat_of_ascii lo <=? nat_of_ascii c)%nat
       && (nat_of_ascii c <=? nat_of_ascii hi)%nat)%bool
  end.

Definition in_class (c : ascii) (cls : list class_item) : bool :=
  existsb (in_item c) cls.

Inductive regex : Type :=
| Void
| Eps
| Chars (cls : list class_item)
| Cat (r1 r2 : regex)
| Alt (r1 r2 : regex)
| Star (r : regex).

(** [r+] *)
Definition Plus (r : regex) : regex := Cat r (Star r).
(** a literal character *)
Definition Lit (c : ascii) : regex := Chars [One c].

Fixpoint nullable (r : regex) : bool :=
  match r with
  | Void => false
  | Eps => true
  | Chars _ => false
  | Cat r1 r2 => nullable r1 && nullable r2
  | Alt r1 r2 => nullable r1 || nullable r2
  | Star _ => true
  end.

Fixpoint deriv (c : ascii) (r : regex) : regex :=
  match r with
  | Void => Void
  | Eps => Void
  | Chars cls => if in_class c cls then Eps else Void
  | Cat r1 r2 =>
      if nullable r1
      then Alt (Cat (deriv c r1) r2) (deriv c r2)
      else Cat (deriv c r1) r2
  | Alt r1 r2 => Alt (deriv c r1) (deriv c r2)
  | Star r1 => Cat (deriv c r1) (Star r1)
  end.

(** [pattern.fullmatch(s)]: the whole of [s] is a word of the pattern. *)
Fixpoint fullmatch (r : regex) (s : string) : bool :=
  match s with
  | EmptyString => nullable r
  | String c s' => fullmatch (deriv c r) s'
  end.

(** [pattern.match(s)]: some prefix of [s], starting at position 0, is a
    word of the pattern (the truth value of the match object). *)
Fixpoint match_ (r : regex) (s : string) : bool :=
  nullable r ||
  match s with
  | EmptyString => false
  | String c s' => match_ (deriv c r) s'
  end.

(** The words of a pattern, as a relation. *)
Inductive lang : regex -> string -> Prop :=
| lang_eps : lang Eps ""
| lang_chars cls c : in_class c cls = true -> lang (Chars cls) (String c "")
| lang_cat r1 r2 s1 s2 : lang r1 s1 -> lang r2 s2 -> lang (Cat r1 r2) (s1 +:+ s2)
| lang_alt_l r1 r2 s : lang r1 s -> lang (Alt r1 r2) s
| lang_alt_r r1 r2 s : lang r2 s -> lang (Alt r1 r2) s
| lang_star_nil r : lang (Star r) ""
| lang_star_app r s1 s2 : lang r s1 -> lang (Star r) s2 -> lang (Star r) (s1 +:+ s2).

End Re.

(** ** [zim_to_corpus/html.py]: the two patterns *)

(** [headerp = re.compile('[hH][0-9]+')] *)
Definition headerp : Re.regex :=
  Re.Cat (Re.Chars [Re.One "h"%char; Re.One "H"%char])
         (Re.Plus (Re.Chars [Re.Range "0"%char "9"%char])).

(** [listp = re.compile('[ou]l')] *)
Definition listp : Re.regex :=
  Re.Cat (Re.Chars [Re.One "o"%char; Re.One "u"%char]) (Re.Lit "l"%char).

(** ** Python values the two modules exchange *)

(** The exception classes that occur.  [OtherError] stands for any class that
    is none of the named ones (a parser failure, an [OSError], ...). *)
Inductive exn : Type :=
| ValueError (msg : string)
| TypeError
| AttributeError
| EOFError
| UnboundLocalError
| OtherError (cls : string).

Global Instance exn_eq_dec : EqDecision exn.
Proof. solve_decision. Defined.

(** The outcome of a call: a returned value or a raised exception. *)
Inductive result (A : Type) : Type :=
| Return (a : A)
| Raise (e : exn).
Arguments Return {A} a.
Arguments Raise {A} e.

(** ** [zim_to_corpus/html.py]: the parse tree

    A bs4 parse tree: a [NavigableString] is a leaf of text, a [Tag] has a
    name and its [contents].  [Comment] stands for the strings of the
    subclasses of [NavigableString] that [get_text] leaves out: [Comment]
    itself, [Doctype], [Declaration], [ProcessingInstruction] and the strings
    of script and style elements.  An element object is identified by its
    position, the list of child indices that leads to it from the root of the
    tree. *)

Inductive PageElement : Type :=
| NavigableString (text : string)
| Tag (name : string) (contents : list PageElement)
| Comment (text : string).

Definition position : Type := list nat.

(** [tree : Union[BeautifulSoup, Tag]].  The [BeautifulSoup] object is the
    tag named [[document]] at the root of a parsed document. *)
Inductive Tree : Type :=
| BeautifulSoup (contents : list PageElement)
| Element (e : PageElement).

(** [child.name]: a tag's name, [None] for a string. *)
Definition element_name (e : PageElement) : option string :=
  match e with
  | NavigableString _ | Comment _ => None
  | Tag n _ => Some n
  end.

(** [isinstance(child, Tag) and child.name == 'section'] *)
Definition is_section (e : PageElement) : bool :=
  match e with
  | NavigableString _ | Comment _ => false
  | Tag n _ => String.eqb n "section"
  end.

(** [isinstance(e, Tag)] *)
Definition is_tag (e : PageElement) : bool :=
  match e with
  | Tag _ _ => true
  | NavigableString _ | Comment _ => false
  end.

(** A header-tagged element: a tag whose name [headerp.match] accepts. *)
Definition is_header (e : PageElement) : bool :=
  match e with
  | Tag n _ => Re.match_ headerp n
  | NavigableString _ | Comment _ => false
  end.

(** [tag.get_text()]: the strings below the element, joined in document
    order; only those whose class is [NavigableString] (or [CData]) itself
    count, so a [Comment] adds nothing. *)
Fixpoint get_text (e : PageElement) : string :=
  match e with
  | NavigableString s => s
  | Comment _ => ""
  | Tag _ cs =>
      (fix join (l : list PageElement) : string :=
         match l with
         | [] => ""
         | c :: l' => get_text c +:+ join l'
         end) cs
  end.

(** The loop of [get_title] over [section.children].  [headerp.match] is
    applied to [child.name]; for a string that is [None], and [re] raises
    [TypeError]. *)
Fixpoint get_title_loop (children : list PageElement) : result string :=
  match children with
  | [] => Raise (ValueError "No header in section")
  | child :: rest =>
      match element_name child with
      | None => Raise TypeError
      | Some n =>
          if Re.match_ headerp n then Return (get_text child)
          else get_title_loop rest
      end
  end.

(** [get_title(section)] *)
Definition get_title (section : PageElement) : result string :=
  match section with
  | Tag _ cs => get_title_loop cs
  | NavigableString _ | Comment _ => Raise AttributeError
  end.

(** What a generator did: the values it yielded, and the exception that ended
    it, if one did. *)
Definition generated (A : Type) : Type := (list A * option exn)%type.

(** Running one piece of a generator's body after another: what the second
    yields follows what the first yields, unless the first raised. *)
Definition gen_then {A : Type} (g1 g2 : generated A) : generated A :=
  match g1.2 with
  | Some _ => g1
  | None => (g1.1 ++ g2.1, g2.2)
  end.

(** [sections_backwards] on an element that is not the [BeautifulSoup]
    object.  [pos] is the position of the element; what is yielded is the
    element together with its position.  The inner loop runs over
    [contents[::-1]], the last child first, and the [else] of the loop always
    runs, the loop having no [break].  A string has no [contents]. *)
Fixpoint sections_backwards_at (pos : position) (tree : PageElement)
  : generated (position * PageElement) :=
  match tree with
  | NavigableString _ | Comment _ => ([], Some AttributeError)
  | Tag name contents =>
      gen_then
        ((fix loop (i : nat) (cs : list PageElement) {struct cs}
            : generated (position * PageElement) :=
            match cs with
            | [] => ([], None)
            | child :: cs' =>
                gen_then (loop (S i) cs')
                  (if is_section child
                   then sections_backwards_at (pos ++ [i]) child
                   else ([], None))
            end) 0 contents)
        (if String.eqb name "section" then ([(pos, tree)], None)
         else ([], None))
  end.

(** [tag.find(target)], on the element itself or below it: the first tag of
    that name in document order. *)
Fixpoint find_tag (target : string) (pos : position) (e : PageElement)
  : option (position * PageElement) :=
  match e with
  | NavigableString _ | Comment _ => None
  | Tag n cs =>
      if String.eqb n target then Some (pos, e)
      else
        (fix first (i : nat) (l : list PageElement) {struct l}
           : option (position * PageElement) :=
           match l with
           | [] => None
           | c :: l' =>
               match find_tag target (pos ++ [i]) c with
               | Some r => Some r
               | None => first (S i) l'
               end
           end) 0 cs
  end.

(** The name of the [BeautifulSoup] object. *)
Definition ROOT_TAG_NAME : string := "[document]".

(** [tree.body] of the [BeautifulSoup] object: [find('body')] below it. *)
Definition body (contents : list PageElement)
  : option (position * PageElement) :=
  find_tag "body" [] (Tag ROOT_TAG_NAME contents).

(** [sections_backwards(tree)].  For the [BeautifulSoup] object the body is
    enumerated first, and the rest of the function then runs on the object
    itself; without a body the recursive call is on [None], whose [contents]
    raises [AttributeError]. *)
Definition sections_backwards (tree : Tree)
  : generated (position * PageElement) :=
  match tree with
  | BeautifulSoup cs =>
      gen_then
        match body cs with
        | None => ([], Some AttributeError)
        | Some (pos, b) => sections_backwards_at pos b
        end
        (sections_backwards_at [] (Tag ROOT_TAG_NAME cs))
  | Element e => sections_backwards_at [] e
  end.

(** The inner loop of [sections_backwards] as a function of its own: the
    children [cs] are those from index [i] on of the element at [pos]. *)
Fixpoint sections_loop (pos : position) (i : nat) (cs : list PageElement)
  : generated (position * PageElement) :=
  match cs with
  | [] => ([], None)
  | child :: cs' =>
      gen_then (sections_loop pos (S i) cs')
        (if is_section child
         then sections_backwards_at (pos ++ [i]) child
         else ([], None))
  end.

(** *** Positions, for the statements *)

(** The element at a position below [e]. *)
Fixpoint element_at (e : PageElement) (p : position) : option PageElement :=
  match p with
  | [] => Some e
  | i :: p' =>
      match e with
      | Tag _ cs =>
          match cs !! i with
          | Some c => element_at c p'
          | None => None
          end
      | NavigableString _ | Comment _ => None
      end
  end.

(** [p] leads from [e] to a section through sections only: the element at
    [p] is a section, and so is every element strictly between [e] and it. *)
Fixpoint section_chain (e : PageElement) (p : position) : bool :=
  match p with
  | [] => is_section e
  | i :: p' =>
      match e with
      | Tag _ cs =>
          match cs !! i with
          | Some c => is_section c && section_chain c p'
          | None => false
          end
      | NavigableString _ | Comment _ => false
      end
  end.

(** Document order on positions: an element comes before its descendants and
    before everything below its later siblings. *)
Fixpoint doc_before (p q : position) : Prop :=
  match p, q with
  | [], [] => False
  | [], _ :: _ => True
  | _ :: _, [] => False
  | i :: p', j :: q' => i < j \/ (i = j /\ doc_before p' q')
  end.

(** The inner loop of [find_tag] as a function of its own. *)
Fixpoint find_first (target : string) (pos : position) (i : nat)
    (l : list PageElement) : option (position * PageElement) :=
  match l with
  | [] => None
  | c :: l' =>
      match find_tag target (pos ++ [i]) c with
      | Some r => Some r
      | None => find_first target pos (S i) l'
      end
  end.

(** The element at the root of a tree. *)
Definition tree_root (t : Tree) : PageElement :=
  match t with
  | BeautifulSoup cs => Tag ROOT_TAG_NAME cs
  | Element e => e
  end.

(** The trees [sections_backwards] has a root to start from: a tag, or a
    document in which there is a body. *)
Definition well_rooted (t : Tree) : Prop :=
  match t with
  | BeautifulSoup cs => is_Some (body cs)
  | Element e => is_tag e = true
  end.

(** The position is at or below the body of a document. *)
Definition below_body (t : Tree) (p : position) : Prop :=
  match t with
  | BeautifulSoup cs => exists pos b q, body cs = Some (pos, b) /\ p = pos ++ q
  | Element _ => False
  end.

(** The sections the enumeration is about: those reached through sections
    only from the root of the tree or, in a document, from its body. *)
Definition enumerated (t : Tree) (p : position) : Prop :=
  section_chain (tree_root t) p = true
  \/ match t with
     | BeautifulSoup cs =>
         exists pos b q,
           body cs = Some (pos, b) /\ p = pos ++ q /\ section_chain b q = true
     | Element _ => False
     end.

(** Reverse document order of a sequence of positions.  Of two positions,
    [p] yielded before [q]: [q] is below the body of a document only if [p]
    is, so that what is below the body comes first; and unless [p] is below
    the body and [q] is not, [q] comes before [p] in the document. *)
Definition reverse_document_order (t : Tree) (ps : list position) : Prop :=
  forall i j p q,
    ps !! i = Some p -> ps !! j = Some q -> i < j ->
    (below_body t q -> below_body t p)
    /\ ((below_body t p -> below_body t q) -> doc_before q p).

(** The position [q ++ r] passes from [q] into the body of a document: [q] is
    at or above the body, and the position is at or below the body.  These
    are the positions that the first step of [sections_backwards], to
    [tree.body], carries over the element at [q]. *)
Definition steps_into_body (t : Tree) (q r : position) : Prop :=
  match t with
  | BeautifulSoup cs =>
      exists pos b s r', body cs = Some (pos, b) /\ pos = q ++ s /\ r = s ++ r'
  | Element _ => False
  end.

(** A document with a section beside the body, inside the html element, and
    a document with a section after the body at the top level. *)
Definition section_beside_body : Tree :=
  BeautifulSoup
    [Tag "html" [Tag "section" [Tag "h2" [NavigableString "S"]];
                 Tag "body" [Tag "section" [Tag "h2" [NavigableString "B"]]]]].

Definition section_after_body : Tree :=
  BeautifulSoup
    [Tag "body" [Tag "section" [Tag "h2" [NavigableString "B"]]];
     Tag "section" [Tag "h2" [NavigableString "S"]]].

(** A body in which a section lies in a [div], and a document around a body
    with sections. *)
Definition div_body : PageElement :=
  Tag "body" [Tag "div" [Tag "section" [Tag "h2" [NavigableString "T"]]]].

Definition sample_document : Tree :=
  BeautifulSoup
    [Tag "html"
       [Tag "head" [Tag "title" [NavigableString "Page"]];
        Tag "body"
          [Tag "section" [Tag "h2" [NavigableString "A"];
                          Tag "section" [Tag "h3" [NavigableString "A1"]]];
           NavigableString " ";
           Tag "section" [Tag "h2" [NavigableString "B"]]]]].

(** ** [scripts/extract_zim_htmls.py] *)

(** The calls to [logging], in the order they are made. *)
Inductive log_record : Type :=
| Debug_converting (input_file output_file : string)
| Error_eof (ee : exn)
| Exception_in (input_file : string) (doc_no : nat) (e : exn)
| Debug_converted (doc_no : nat) (input_file output_file : string)
| Info_scheduled (n : nat)
| Info_done (total_docs : nat).

(** The part of the world the script acts on: the files it writes, each as
    the list of its lines, and the log. *)
Record world : Type := World {
  files : gmap string (list string);
  log : list log_record
}.

(** What the script gets from outside its own two files:
    - [enumerate_static_dump input_file], the pages the reader yields and how
      it ends: [None] when it is exhausted, [Some e] when reading the next
      page raises [e] ([EOFError] for a truncated archive);
    - [parse_prettify html], that is [ZimHtmlParser.parse(html).prettify()],
      which returns the minimal HTML or raises;
    - [json_dumps];
    - [listdir], the result of [os.listdir];
    - [gzip_open output_file], the outcome of [gzip.open(output_file, 'wt')]:
      [None] when the file opens, [Some e] when opening it raises [e] (no
      such directory, no permission, ...).
    The archives are taken to lie outside the files the script writes: what
    the reader yields for a path does not depend on the output files. *)
Record Env : Type := {
  enumerate_static_dump : string -> list string * option exn;
  parse_prettify : string -> result string;
  json_dumps : string -> string;
  listdir : string -> list string;
  gzip_open : string -> option exn
}.

Definition log_call (r : log_record) (w : world) : world :=
  World (files w) (log w ++ [r]).

(** [gzip.open(output_file, 'wt')], when it opens the file: the file is
    created, or emptied. *)
Definition gzip_open_wt (output_file : string) (w : world) : world :=
  World (<[output_file := []]> (files w)) (log w).

(** Leaving the [with] block closes the file: the lines printed to it are
    then in the file, after what the file held when it was opened for
    writing. *)
Definition close_file (output_file : string) (lines : list string) (w : world)
  : world :=
  World (alter (fun held => held ++ lines) output_file (files w)) (log w).

(** [enumerate(iterable, start)] *)
Fixpoint enumerate {A : Type} (l : list A) (start : nat) : list (nat * A) :=
  match l with
  | [] => []
  | x :: l' => (start, x) :: enumerate l' (S start)
  end.

(** The [for] loop of [convert_to_json].  [doc_no] is the local variable,
    [None] while it is unbound; [outf] holds the lines printed so far;
    [ending] is how the reader ends after the last page.  The result is the
    state when the loop is left, with the exception that left it, if any. *)
Fixpoint for_loop (E : Env) (items : list (nat * string)) (ending : option exn)
    (doc_no : option nat) (outf : list string)
  : option nat * list string * option exn :=
  match items with
  | [] => (doc_no, outf, ending)
  | (n, html) :: rest =>
      match parse_prettify E html with
      | Raise e => (Some n, outf, Some e)
      | Return wp => for_loop E rest ending (Some n) (outf ++ [json_dumps E wp])
      end
  end.

(** Reading the local variable [doc_no]. *)
Definition read_doc_no (doc_no : option nat) : result nat :=
  match doc_no with
  | Some n => Return n
  | None => Raise UnboundLocalError
  end.

(** What follows the [try] statement of [convert_to_json]: the two [except]
    clauses when [raised] is an exception, the last two lines of the function
    when it is none. *)
Definition leave_try (input_file output_file : string) (doc_no : option nat)
    (raised : option exn) (w : world) : world * result nat :=
  match raised with
  | Some EOFError =>
      let w := log_call (Error_eof EOFError) w in
      (w, read_doc_no doc_no)
  | Some e =>
      match read_doc_no doc_no with
      | Return n => (log_call (Exception_in input_file n e) w, Raise e)
      | Raise e' => (w, Raise e')
      end
  | None =>
      match read_doc_no doc_no with
      | Return n =>
          (log_call (Debug_converted n input_file output_file) w, Return n)
      | Raise e' => (w, Raise e')
      end
  end.

(** [convert_to_json(input_file, output_file)].  [gzip.open] is inside the
    [try]: when it raises, no file is made and no page is read. *)
Definition convert_to_json (E : Env) (input_file output_file : string)
    (w : world) : world * result nat :=
  let w := log_call (Debug_converting input_file output_file) w in
  match gzip_open E output_file with
  | Some e => leave_try input_file output_file None (Some e) w
  | None =>
      let w := gzip_open_wt output_file w in
      let '(pages, ending) := enumerate_static_dump E input_file in
      let '(doc_no, outf, raised) :=
        for_loop E (enumerate pages 1) ending None [] in
      let w := close_file output_file outf w in
      leave_try input_file output_file doc_no raised w
  end.

(** [os.path.join(a, b)] *)
Definition starts_with_sep (s : string) : bool :=
  match s with
  | String c _ => Ascii.eqb c "/"
  | EmptyString => false
  end.

Fixpoint ends_with_sep (s : string) : bool :=
  match s with
  | EmptyString => false
  | String c EmptyString => Ascii.eqb c "/"
  | String _ s' => ends_with_sep s'
  end.

Definition op_join (a b : string) : string :=
  if starts_with_sep b then b
  else if (String.eqb a "" || ends_with_sep a)%bool then a +:+ b
  else a +:+ "/" +:+ b.

(** [os.path.basename(p)]: what follows the last separator. *)
Fixpoint has_sep (s : string) : bool :=
  match s with
  | EmptyString => false
  | String c s' => (Ascii.eqb c "/" || has_sep s')%bool
  end.

Fixpoint basename (p : string) : string :=
  match p with
  | EmptyString => ""
  | String c p' =>
      if has_sep p' then basename p'
      else if Ascii.eqb c "/" then p' else p
  end.

(** The command line of the script. *)
Record Args : Type := {
  input_dir : string;
  output_dir : string;
  processes : nat;
  log_level : string
}.

(** [in_out_files] of [main] *)
Definition in_out_files (E : Env) (args : Args) : list (string * string) :=
  map (fun f => (op_join (input_dir args) f, op_join (output_dir args) f))
      (listdir E (input_dir args)).

(** The size of the batches [Pool.starmap] cuts the tasks into when it is
    given none: [divmod(len(iterable), len(self._pool) * 4)], one more when
    there is a remainder. *)
Definition map_chunksize (n processes : nat) : nat :=
  if (n mod (processes * 4) =? 0)%nat then n / (processes * 4)
  else S (n / (processes * 4)).

(** [Pool._get_tasks]: the tasks in batches of [size], the last one shorter
    when the tasks run out.  [batch] holds the tasks of the batch under way,
    the last one first, and [room] is the number of tasks it still takes. *)
Fixpoint get_tasks_from {A : Type} (size room : nat) (batch l : list A)
  : list (list A) :=
  match l with
  | [] => match batch with [] => [] | _ :: _ => [reverse batch] end
  | x :: l' =>
      match room with
      | 0 => reverse batch :: get_tasks_from size (size - 1) [x] l'
      | S room' => get_tasks_from size room' (x :: batch) l'
      end
  end.

Definition get_tasks {A : Type} (size : nat) (l : list A) : list (list A) :=
  match size with
  | 0 => []
  | S _ => get_tasks_from size size [] l
  end.

(** A worker runs a batch, [list(itertools.starmap(func, batch))]: the calls
    are made in order, and the first one that raises ends the batch, the
    tasks after it not being run. *)
Fixpoint run_batch {A : Type}
    (func : string -> string -> world -> world * result A)
    (batch : list (string * string)) (w : world) : world * result (list A) :=
  match batch with
  | [] => (w, Return [])
  | (i, o) :: rest =>
      match func i o w with
      | (w1, Raise e) => (w1, Raise e)
      | (w1, Return a) =>
          let '(w2, r) := run_batch func rest w1 in
          (w2, match r with
               | Return l => Return (a :: l)
               | Raise e => Raise e
               end)
      end
  end.

(** Every batch is run, whatever becomes of the others.  The workers share
    nothing but the world each of them writes its own file and log records
    to; the batches are run here one after the other, where the pool runs
    them side by side and the log records of different workers come in any
    order. *)
Fixpoint run_batches {A : Type}
    (func : string -> string -> world -> world * result A)
    (batches : list (list (string * string))) (w : world)
  : world * list (result (list A)) :=
  match batches with
  | [] => (w, [])
  | batch :: rest =>
      let '(w1, r) := run_batch func batch w in
      let '(w2, rs) := run_batches func rest w1 in
      (w2, r :: rs)
  end.

(** The value of the map in the parent, once every batch is done: the results
    of the batches joined in order, or the exception of a batch that raised
    (here of the first such batch; the pool keeps the one that arrives
    first). *)
Fixpoint gather {A : Type} (rs : list (result (list A))) : result (list A) :=
  match rs with
  | [] => Return []
  | Return l :: rs' =>
      match gather rs' with
      | Return l' => Return (l ++ l')
      | Raise e => Raise e
      end
  | Raise e :: _ => Raise e
  end.

(** [pool.starmap(func, tasks)] of a pool of [processes] workers. *)
Definition starmap {A : Type}
    (func : string -> string -> world -> world * result A)
    (processes : nat) (tasks : list (string * string)) (w : world)
  : world * result (list A) :=
  let chunksize := map_chunksize (length tasks) processes in
  let '(w, rs) := run_batches func (get_tasks chunksize tasks) w in
  (w, gather rs).

(** [sum] *)
Definition sum (l : list nat) : nat := foldr Nat.add 0 l.

(** [main()], after the arguments are parsed and logging is set up.
    [Pool(processes)] raises [ValueError] for less than one process. *)
Definition main (E : Env) (args : Args) (w : world) : world * result unit :=
  let tasks := in_out_files E args in
  let w := log_call (Info_scheduled (length tasks)) w in
  if (processes args =? 0)%nat
  then (w, Raise (ValueError "Number of processes must be at least 1"))
  else
    let '(w, r) := starmap (convert_to_json E) (processes args) tasks w in
    match r with
    | Raise e => (w, Raise e)
    | Return counts =>
        let total_docs := sum counts in
        (log_call (Info_done total_docs) w, Return tt)
    end.

(** *** Words used in the statements about the script *)

(** The page converts: [parse_prettify] returns. *)
Definition converts (E : Env) (html : string) : Prop :=
  exists wp, parse_prettify E html = Return wp.

(** The lines of the pages that convert, up to the first that does not. *)
Fixpoint converted_lines (E : Env) (pages : list string) : list string :=
  match pages with
  | [] => []
  | html :: rest =>
      match parse_prettify E html with
      | Return wp => json_dumps E wp :: converted_lines E rest
      | Raise _ => []
      end
  end.

(** [l] is the line written for the page [html]. *)
Definition line_for (E : Env) (html l : string) : Prop :=
  exists wp, parse_prettify E html = Return wp /\ l = json_dumps E wp.

(** The worker invocation a log record announces, if it announces one. *)
Definition converting_call (r : log_record) : option (string * string) :=
  match r with
  | Debug_converting i o => Some (i, o)
  | _ => None
  end.

(** The record and the document number of a logged failure. *)
Definition logged_failure (r : log_record) : option (string * nat) :=
  match r with
  | Exception_in i n _ => Some (i, n)
  | _ => None
  end.

(** Archives and a converter to run the script on: [empty.zim] holds no page,
    [cut0.zim] is truncated before its first page, [cut2.zim] after its second
    page, [io0.zim] and [io1.zim] fail with an I/O error on reading the first
    and the second page, [bad2.zim] holds a second page that does not
    convert, and any other archive holds three pages. *)
Definition sample_env : Env := {|
  enumerate_static_dump := fun f =>
    if String.eqb f "in/empty.zim" then ([], None)
    else if String.eqb f "in/cut0.zim" then ([], Some EOFError)
    else if String.eqb f "in/cut2.zim" then (["<p>a</p>"; "<p>b</p>"], Some EOFError)
    else if String.eqb f "in/io0.zim" then ([], Some (OtherError "OSError"))
    else if String.eqb f "in/io1.zim" then (["<p>a</p>"], Some (OtherError "OSError"))
    else if String.eqb f "in/bad2.zim" then (["<p>a</p>"; "bad"; "<p>c</p>"], None)
    else (["<p>a</p>"; "<p>b</p>"; "<p>c</p>"], None);
  parse_prettify := fun html =>
    if String.eqb html "bad" then Raise (ValueError "No header in section")
    else Return html;
  json_dumps := fun s =>
    String (ascii_of_nat 34) (s +:+ String (ascii_of_nat 34) EmptyString);
  listdir := fun d =>
    if String.eqb d "in" then ["full.zim"; "cut2.zim"] else [];
  gzip_open := fun o =>
    if String.eqb o "missing/full.zim"
    then Some (OtherError "FileNotFoundError") else None
|}.

Definition empty_world : world := World ∅ [].

Definition sample_args : Args := {|
  input_dir := "in"; output_dir := "out"; processes := 2; log_level := "info"
|}.

(** What the worker returns or raises for each listed file, in the order of
    the listing. *)
Definition worker_results (E : Env) (args : Args) : list (result nat) :=
  map (fun f => (convert_to_json E (op_join (input_dir args) f)
                   (op_join (output_dir args) f) empty_world).2)
      (listdir E (input_dir args)).

(** The batches [main] hands to the pool. *)
Definition task_batches (E : Env) (args : Args) : list (list (string * string)) :=
  get_tasks (map_chunksize (length (in_out_files E args)) (processes args))
    (in_out_files E args).

(** A listing of five archives, the first truncated before its first page,
    and a command line for one process. *)
Definition failing_env : Env := {|
  enumerate_static_dump := enumerate_static_dump sample_env;
  parse_prettify := parse_prettify sample_env;
  json_dumps := json_dumps sample_env;
  listdir := fun _ => ["cut0.zim"; "a.zim"; "b.zim"; "c.zim"; "d.zim"];
  gzip_open := fun _ => None
|}.

Definition one_process_args : Args := {|
  input_dir := "in"; output_dir := "out"; processes := 1; log_level := "info"
|}.

(** *** Words used in the statements about the patterns *)

Definition is_digit (c : ascii) : bool :=
  ((48 <=? nat_of_ascii c)%nat && (nat_of_ascii c <=? 57)%nat)%bool.

Fixpoint all_digits (s : string) : bool :=
  match s with
  | EmptyString => true
  | String c s' => (is_digit c && all_digits s')%bool
  end.

(** The pattern as the specification words it: the letter h, then one or
    more digits, and nothing else. *)
Definition h_then_digits (name : string) : bool :=
  match name with
  | String c ds =>
      (Ascii.eqb c "h" && negb (String.eqb ds "") && all_digits ds)%bool
  | EmptyString => false
  end.

(** Modelled from the spec: the code that applies [listp] to an element is
    not in [html.py], which only compiles the pattern.  The specification has
    the tag name be exactly a word of the pattern, so the pattern is matched
    against the whole name. *)
Definition is_list_container (name : string) : bool :=
  Re.fullmatch listp name.

(** *** Words used in the further statements *)

(** A child that [get_title] passes over: a tag that is not a header. *)
Definition passed_over (c : PageElement) : Prop :=
  is_tag c = true /\ is_header c = false.

(** The number of section elements in a tree, wherever they lie. *)
Fixpoint count_sections (e : PageElement) : nat :=
  match e with
  | NavigableString _ | Comment _ => 0
  | Tag n cs =>
      (if String.eqb n "section" then 1 else 0)
      + (fix below (l : list PageElement) : nat :=
           match l with
           | [] => 0
           | c :: l' => count_sections c + below l'
           end) cs
  end.

Fixpoint count_sections_list (l : list PageElement) : nat :=
  match l with
  | [] => 0
  | c :: l' => count_sections c + count_sections_list l'
  end.

(** Every section below [e] lies directly in a section or directly in [e]:
    an element below [e] that is not a section holds no section. *)
Fixpoint directly_nested (e : PageElement) : bool :=
  match e with
  | NavigableString _ | Comment _ => true
  | Tag _ cs =>
      (fix all (l : list PageElement) : bool :=
         match l with
         | [] => true
         | c :: l' =>
             (if is_section c then directly_nested c
              else Nat.eqb (count_sections c) 0) && all l'
         end) cs
  end.

Fixpoint directly_nested_list (l : list PageElement) : bool :=
  match l with
  | [] => true
  | c :: l' =>
      (if is_section c then directly_nested c
       else Nat.eqb (count_sections c) 0) && directly_nested_list l'
  end.

(** A section with a title after a link, and a body whose sections are
    nested directly. *)
Definition titled_section : PageElement :=
  Tag "section" [Tag "a" []; Tag "h2" [NavigableString "History"];
                 Tag "p" [NavigableString "text"]].

Definition nested_body : PageElement :=
  Tag "body"
    [Tag "section" [Tag "h2" [NavigableString "A"];
                    Tag "section" [Tag "h3" [NavigableString "A1"]]];
     Tag "p" [NavigableString "between"];
     Tag "section" [Tag "h2" [NavigableString "B"]]].

(** A converter that raises [EOFError] on the page [cut], and an archive whose
    second page is that page. *)
Definition eof_env : Env := {|
  enumerate_static_dump := fun _ => (["<p>a</p>"; "cut"; "<p>c</p>"], None);
  parse_prettify := fun html =>
    if String.eqb html "cut" then Raise EOFError else Return html;
  json_dumps := fun s => s;
  listdir := fun _ => [];
  gzip_open := fun _ => None
|}.

(** The body of [sample_document]. *)
Definition sample_body : PageElement :=
  Tag "body"
    [Tag "section" [Tag "h2" [NavigableString "A"];
                    Tag "section" [Tag "h3" [NavigableString "A1"]]];
     NavigableString " ";
     Tag "section" [Tag "h2" [NavigableString "B"]]].

(** * Properties *)

(** ** The matcher agrees with the words of the pattern *)

Lemma string_app_nil_l (s : string) : "" +:+ s = s.
Proof. reflexivity. Qed.

Lemma string_app_cons (c : ascii) (s1 s2 : string) :
  String c s1 +:+ s2 = String c (s1 +:+ s2).
Proof. reflexivity. Qed.

Lemma string_app_nil_r (s : string) : s +:+ "" = s.
Proof. induction s as [|c s IH]; [reflexivity|]. rewrite string_app_cons, IH. reflexivity. Qed.

Lemma string_app_assoc (s1 s2 s3 : string) :
  (s1 +:+ s2) +:+ s3 = s1 +:+ (s2 +:+ s3).
Proof.
  induction s1 as [|c s1 IH]; [reflexivity|].
  rewrite !string_app_cons, IH. reflexivity.
Qed.

Lemma nullable_lang r : Re.nullable r = true <-> Re.lang r "".
Proof.
  split.
  - induction r; simpl; intros H; try discriminate.
    + constructor.
    + apply andb_prop in H as [H1 H2].
      change "" with ("" +:+ ""). constructor; auto.
    + apply orb_prop in H as [H | H]; [apply Re.lang_alt_l | apply Re.lang_alt_r]; auto.
    + constructor.
  - intros H. remember "" as w eqn:Hw. induction H; simpl; auto; try discriminate.
    + destruct s1; [|discriminate]. rewrite string_app_nil_l in Hw. subst s2.
      rewrite IHlang1, IHlang2; auto.
    + rewrite IHlang; auto.
    + rewrite IHlang; auto. apply orb_true_r.
Qed.

Lemma deriv_lang c r s : Re.lang (Re.deriv c r) s -> Re.lang r (String c s).
Proof.
  revert s. induction r; simpl; intros s H.
  - inversion H.
  - inversion H.
  - destruct (Re.in_class c cls) eqn:Hc; inversion H; subst.
    constructor. assumption.
  - destruct (Re.nullable r1) eqn:Hn.
    + inversion H as [ | | | ? ? ? H1 | ? ? ? H2 | | ]; subst.
      * inversion H1; subst.
        change (String c (s1 +:+ s2)) with (String c s1 +:+ s2).
        constructor; auto.
      * change (String c s) with ("" +:+ String c s).
        constructor; auto. apply nullable_lang. assumption.
    + inversion H; subst.
      change (String c (s1 +:+ s2)) with (String c s1 +:+ s2).
      constructor; auto.
  - inversion H; subst; [apply Re.lang_alt_l | apply Re.lang_alt_r]; auto.
  - inversion H; subst.
    change (String c (s1 +:+ s2)) with (String c s1 +:+ s2).
    constructor; auto.
Qed.

Lemma lang_deriv c r s : Re.lang r (String c s) -> Re.lang (Re.deriv c r) s.
Proof.
  intros H. remember (String c s) as w eqn:Hw. revert s Hw.
  induction H; intros t Hw; try discriminate.
  - injection Hw as -> <-. simpl. rewrite H. constructor.
  - simpl. destruct s1 as [|c1 s1'].
    + rewrite string_app_nil_l in Hw. subst s2.
      assert (Hn : Re.nullable r1 = true) by (apply nullable_lang; assumption).
      rewrite Hn. apply Re.lang_alt_r. auto.
    + rewrite string_app_cons in Hw. injection Hw as -> <-.
      destruct (Re.nullable r1).
      * apply Re.lang_alt_l. constructor; auto.
      * constructor; auto.
  - simpl. apply Re.lang_alt_l. auto.
  - simpl. apply Re.lang_alt_r. auto.
  - destruct s1 as [|c1 s1'].
    + rewrite string_app_nil_l in Hw. auto.
    + rewrite string_app_cons in Hw. injection Hw as -> <-. simpl.
      constructor; auto.
Qed.

(** [fullmatch] succeeds exactly on the words of the pattern. *)
Lemma fullmatch_lang r s : Re.fullmatch r s = true <-> Re.lang r s.
Proof.
  revert r. induction s as [|c s IH]; intros r; simpl.
  - apply nullable_lang.
  - rewrite IH. split; [apply deriv_lang | apply lang_deriv].
Qed.

(** [match] succeeds exactly when a prefix of the string is a word of the
    pattern. *)
Lemma match_lang r s :
  Re.match_ r s = true <-> exists p q, s = p +:+ q /\ Re.lang r p.
Proof.
  revert r. induction s as [|c s IH]; intros r; simpl.
  - rewrite orb_false_r, nullable_lang. split.
    + intros H. exists "", "". auto.
    + intros (p & q & Hpq & H). destruct p; [assumption | discriminate].
  - split.
    + intros H. apply orb_prop in H as [H | H].
      * exists "", (String c s). split; [reflexivity | apply nullable_lang; assumption].
      * apply IH in H as (p & q & -> & H).
        exists (String c p), q. split; [reflexivity | apply deriv_lang; assumption].
    + intros (p & q & Hpq & H). destruct p as [|c' p].
      * apply nullable_lang in H. rewrite H. reflexivity.
      * rewrite string_app_cons in Hpq. injection Hpq as <- ->.
        apply orb_true_iff. right. apply IH.
        exists p, q. split; [reflexivity | apply lang_deriv; assumption].
Qed.

(** ** The header and list patterns *)

Lemma lang_chars_inv cls s :
  Re.lang (Re.Chars cls) s -> exists c, s = String c "" /\ Re.in_class c cls = true.
Proof. intros H. inversion H; subst. eauto. Qed.

Lemma in_class_digits c :
  Re.in_class c [Re.Range "0"%char "9"%char] = is_digit c.
Proof. unfold Re.in_class, is_digit. simpl. apply orb_false_r. Qed.

Lemma in_class_two c a b :
  Re.in_class c [Re.One a; Re.One b] = true <-> c = a \/ c = b.
Proof.
  unfold Re.in_class. simpl. rewrite orb_false_r, orb_true_iff.
  rewrite !Ascii.eqb_eq. reflexivity.
Qed.

Lemma lang_star_digits s :
  Re.lang (Re.Star (Re.Chars [Re.Range "0"%char "9"%char])) s ->
  all_digits s = true.
Proof.
  intros H.
  remember (Re.Star (Re.Chars [Re.Range "0"%char "9"%char])) as r eqn:Hr.
  induction H; try discriminate.
  - reflexivity.
  - injection Hr as ->.
    apply lang_chars_inv in H as (c & -> & Hc).
    rewrite string_app_cons, string_app_nil_l. simpl.
    rewrite in_class_digits in Hc. rewrite Hc. auto.
Qed.

Lemma digits_lang_star s :
  all_digits s = true ->
  Re.lang (Re.Star (Re.Chars [Re.Range "0"%char "9"%char])) s.
Proof.
  induction s as [|c s IH]; simpl; intros H.
  - constructor.
  - apply andb_prop in H as [Hc Hs].
    change (String c s) with (String c "" +:+ s).
    constructor; [|auto]. constructor. rewrite in_class_digits. assumption.
Qed.

(** The words of [headerp]: h or H, then one or more digits. *)
Lemma lang_headerp p :
  Re.lang headerp p <->
  exists c ds, p = String c ds /\ (c = "h"%char \/ c = "H"%char)
               /\ ds <> "" /\ all_digits ds = true.
Proof.
  unfold headerp, Re.Plus. split.
  - intros H. inversion H as [ | | ? ? s1 s2 H1 H2 | | | | ]; subst.
    apply lang_chars_inv in H1 as (c & -> & Hc).
    inversion H2 as [ | | ? ? t1 t2 H3 H4 | | | | ]; subst.
    apply lang_chars_inv in H3 as (d & -> & Hd).
    apply lang_star_digits in H4.
    exists c, (String d t2). rewrite !string_app_cons, !string_app_nil_l.
    split; [reflexivity|]. split; [apply in_class_two; assumption|].
    split; [discriminate|]. simpl. rewrite in_class_digits in Hd.
    rewrite Hd. assumption.
  - intros (c & ds & -> & Hc & Hne & Hds).
    destruct ds as [|d ds]; [congruence|]. simpl in Hds.
    apply andb_prop in Hds as [Hd Hds].
    change (String c (String d ds)) with (String c "" +:+ (String d "" +:+ ds)).
    constructor.
    + constructor. apply in_class_two. assumption.
    + constructor.
      * constructor. rewrite in_class_digits. assumption.
      * apply digits_lang_star. assumption.
Qed.

(** C5, as the code has it: [headerp.match] recognises a tag name exactly
    when the name begins with h or H followed by one or more digits; what
    comes after the digits is not looked at. *)
Theorem headerp_match_iff (name : string) :
  Re.match_ headerp name = true <->
  exists c ds rest,
    name = String c (ds +:+ rest)
    /\ (c = "h"%char \/ c = "H"%char)
    /\ ds <> "" /\ all_digits ds = true.
Proof.
  rewrite match_lang. split.
  - intros (p & q & -> & H). apply lang_headerp in H as (c & ds & -> & Hc & Hne & Hds).
    exists c, ds, q. rewrite string_app_cons. auto.
  - intros (c & ds & rest & -> & Hc & Hne & Hds).
    exists (String c ds), rest. split; [reflexivity|].
    apply lang_headerp. eauto 10.
Qed.

(** C5 as stated fails: [headerp.match] accepts the names H1 and h1x, neither
    of which is the letter h followed by digits only. *)
Lemma headerp_not_h_then_digits :
  (Re.match_ headerp "H1" = true /\ h_then_digits "H1" = false)
  /\ (Re.match_ headerp "h1x" = true /\ h_then_digits "h1x" = false).
Proof. repeat split; reflexivity. Qed.

(** On the names the specification has in mind the two agree. *)
Lemma h_then_digits_match name :
  h_then_digits name = true -> Re.match_ headerp name = true.
Proof.
  destruct name as [|c ds]; simpl; [discriminate|]. intros H.
  apply andb_prop in H as [H Hds]. apply andb_prop in H as [Hc Hne].
  apply Ascii.eqb_eq in Hc. subst c.
  apply (proj2 (headerp_match_iff (String "h" ds))).
  exists "h"%char, ds, "". rewrite string_app_nil_r.
  repeat split; auto.
  intros ->. discriminate.
Qed.

(** The words of [listp]. *)
Lemma lang_listp p : Re.lang listp p <-> p = "ul" \/ p = "ol".
Proof.
  unfold listp, Re.Lit. split.
  - intros H. inversion H as [ | | ? ? s1 s2 H1 H2 | | | | ]; subst.
    apply lang_chars_inv in H1 as (c & -> & Hc).
    apply lang_chars_inv in H2 as (d & -> & Hd).
    apply in_class_two in Hc.
    unfold Re.in_class in Hd. simpl in Hd. rewrite orb_false_r in Hd.
    apply Ascii.eqb_eq in Hd. subst d.
    destruct Hc as [-> | ->]; auto.
  - intros [-> | ->].
    + change "ul" with ("u" +:+ "l"). constructor; constructor; reflexivity.
    + change "ol" with ("o" +:+ "l"). constructor; constructor; reflexivity.
Qed.

(** C8: an element is a list container exactly when its tag name is ul or
    ol. *)
Theorem is_list_container_iff (name : string) :
  is_list_container name = true <-> name = "ul" \/ name = "ol".
Proof. unfold is_list_container. rewrite fullmatch_lang. apply lang_listp. Qed.

(** Applied with [match], as [get_title] applies [headerp], the pattern
    would also accept longer names. *)
Example listp_match_prefix : Re.match_ listp "ulx" = true.
Proof. reflexivity. Qed.

(** ** [get_title] *)

(** The first header among children that are all tags up to it. *)
Lemma get_title_first_header name pre h post :
  Forall (fun c => is_tag c = true /\ is_header c = false) pre ->
  is_header h = true ->
  get_title (Tag name (pre ++ h :: post)) = Return (get_text h).
Proof.
  intros Hpre Hh. simpl. induction Hpre as [|c pre [Hc1 Hc2] _ IH]; simpl.
  - destruct h as [|n sub|]; [discriminate| |discriminate]. simpl in *. rewrite Hh. reflexivity.
  - destruct c as [|n sub|]; [discriminate| |discriminate]. simpl in *. rewrite Hc2. assumption.
Qed.

(** No header among children that are all tags: the structural error. *)
Lemma get_title_no_header name cs :
  Forall (fun c => is_tag c = true /\ is_header c = false) cs ->
  get_title (Tag name cs) = Raise (ValueError "No header in section").
Proof.
  intros Hcs. simpl. induction Hcs as [|c cs [Hc1 Hc2] _ IH]; simpl.
  - reflexivity.
  - destruct c as [|n sub|]; [discriminate| |discriminate]. simpl in *. rewrite Hc2. assumption.
Qed.

(** A string among the children, with no header before it: [TypeError],
    whatever follows. *)
Lemma get_title_string_child name pre text post :
  Forall (fun c => is_tag c = true /\ is_header c = false) pre ->
  get_title (Tag name (pre ++ NavigableString text :: post)) = Raise TypeError.
Proof.
  intros Hpre. simpl. induction Hpre as [|c pre [Hc1 Hc2] _ IH]; simpl.
  - reflexivity.
  - destruct c as [|n sub|]; [discriminate| |discriminate]. simpl in *. rewrite Hc2. assumption.
Qed.

(** C3 at a section whose header follows a text node, and at a section that
    holds text only: [get_title] raises [TypeError], neither the title nor
    the [ValueError]. *)
Theorem get_title_text_before_header :
  get_title (Tag "section" [NavigableString " ";
                            Tag "h2" [NavigableString "Title"]])
    = Raise TypeError
  /\ get_title (Tag "section" [NavigableString "text only"]) = Raise TypeError.
Proof. split; reflexivity. Qed.

(** ** [sections_backwards] *)

(** Induction on a parse tree, with the hypothesis for every child. *)
Lemma PageElement_ind' (P : PageElement -> Prop) :
  (forall s, P (NavigableString s)) ->
  (forall n cs, Forall P cs -> P (Tag n cs)) ->
  (forall s, P (Comment s)) ->
  forall e, P e.
Proof.
  intros Hs Ht Hc. fix IH 1. intros [s | n cs | s].
  - apply Hs.
  - apply Ht. induction cs as [|c cs IHcs]; constructor; [apply IH | apply IHcs].
  - apply Hc.
Qed.

Lemma sections_backwards_at_tag pos name cs :
  sections_backwards_at pos (Tag name cs) =
  gen_then (sections_loop pos 0 cs)
    (if String.eqb name "section" then ([(pos, Tag name cs)], None)
     else ([], None)).
Proof.
  simpl. f_equal. generalize 0 as i.
  induction cs as [|c cs IH]; intros i; [reflexivity|].
  simpl. rewrite IH. reflexivity.
Qed.

Lemma is_section_is_tag e : is_section e = true -> is_tag e = true.
Proof. destruct e; [discriminate | reflexivity | discriminate]. Qed.

Lemma gen_then_snd {A} (g1 g2 : generated A) :
  g1.2 = None -> g2.2 = None -> (gen_then g1 g2).2 = None.
Proof. unfold gen_then. intros -> H. assumption. Qed.

Lemma gen_then_fst {A} (g1 g2 : generated A) :
  g1.2 = None -> (gen_then g1 g2).1 = g1.1 ++ g2.1.
Proof. unfold gen_then. intros ->. reflexivity. Qed.

(** On a tag the generator runs to its end. *)
Lemma sections_backwards_at_no_raise e :
  forall pos, is_tag e = true -> (sections_backwards_at pos e).2 = None.
Proof.
  induction e as [s | n cs IH | s] using PageElement_ind'; intros pos Ht.
  - discriminate.
  - rewrite sections_backwards_at_tag. apply gen_then_snd.
    + clear Ht. generalize 0 as i.
      induction IH as [|c cs Hc _ IHcs]; intros i; simpl.
      * reflexivity.
      * apply gen_then_snd; [apply IHcs|].
        destruct (is_section c) eqn:Hsec; [|reflexivity].
        apply Hc, is_section_is_tag. assumption.
    + destruct (String.eqb n "section"); reflexivity.
  - discriminate.
Qed.

Lemma sections_loop_no_raise pos i cs : (sections_loop pos i cs).2 = None.
Proof.
  revert i. induction cs as [|c cs IH]; intros i; simpl; [reflexivity|].
  apply gen_then_snd; [apply IH|].
  destruct (is_section c) eqn:Hsec; [|reflexivity].
  apply sections_backwards_at_no_raise, is_section_is_tag. assumption.
Qed.

(** The values yielded, without the ending. *)
Lemma yields_tag pos name cs :
  (sections_backwards_at pos (Tag name cs)).1 =
  (sections_loop pos 0 cs).1
    ++ (if String.eqb name "section" then [(pos, Tag name cs)] else []).
Proof.
  rewrite sections_backwards_at_tag, gen_then_fst by apply sections_loop_no_raise.
  destruct (String.eqb name "section"); reflexivity.
Qed.

Lemma yields_loop_cons pos i c cs :
  (sections_loop pos i (c :: cs)).1 =
  (sections_loop pos (S i) cs).1
    ++ (if is_section c then (sections_backwards_at (pos ++ [i]) c).1 else []).
Proof.
  simpl. rewrite gen_then_fst by apply sections_loop_no_raise.
  destruct (is_section c); reflexivity.
Qed.

(** The positions yielded below [pos] are those yielded from the root, with
    [pos] in front. *)
Lemma yields_relocate e :
  forall pos,
    (sections_backwards_at pos e).1 =
    prod_map (app pos) id <$> (sections_backwards_at [] e).1.
Proof.
  induction e as [s | n cs IH | s] using PageElement_ind'; intros pos.
  - reflexivity.
  - rewrite !yields_tag, fmap_app. f_equal.
    + generalize 0 as i. induction IH as [|c cs Hc _ IHcs]; intros i.
      * reflexivity.
      * rewrite !yields_loop_cons, fmap_app, IHcs. f_equal.
        destruct (is_section c); [|reflexivity].
        rewrite (Hc (pos ++ [i])), (Hc ([] ++ [i])), <- list_fmap_compose.
        apply list_fmap_ext. intros _ [q x] _. simpl.
        unfold prod_map. simpl. rewrite <- app_assoc. reflexivity.
    + destruct (String.eqb n "section"); [|reflexivity].
      simpl. unfold prod_map. simpl. rewrite app_nil_r. reflexivity.
  - reflexivity.
Qed.

(** What the loop yields: for every child that is a section, what that child
    yields, under the child's index. *)
Lemma elem_of_yields_loop i cs p x :
  (p, x) ∈ (sections_loop [] i cs).1 <->
  exists j c q,
    p = (i + j) :: q /\ cs !! j = Some c /\ is_section c = true
    /\ (q, x) ∈ (sections_backwards_at [] c).1.
Proof.
  revert i. induction cs as [|c cs IH]; intros i.
  - simpl. rewrite elem_of_nil. split; [tauto|].
    intros (j & c & q & _ & Hj & _). discriminate.
  - rewrite yields_loop_cons, elem_of_app, IH. split.
    + intros [(j & c' & q & -> & Hj & Hs & Hin) | Hin].
      * exists (S j), c', q. rewrite Nat.add_succ_r. auto.
      * destruct (is_section c) eqn:Hsec; [|apply elem_of_nil in Hin; tauto].
        rewrite yields_relocate in Hin.
        apply list_elem_of_fmap in Hin as ([q y] & Heq & Hin).
        unfold prod_map in Heq. simpl in Heq. injection Heq as -> ->.
        exists 0, c, q. rewrite Nat.add_0_r. auto.
    + intros (j & c' & q & -> & Hj & Hs & Hin). destruct j as [|j].
      * simpl in Hj. injection Hj as ->. right. rewrite Hs.
        rewrite yields_relocate. apply list_elem_of_fmap.
        exists (q, x). rewrite Nat.add_0_r. auto.
      * left. exists j, c', q. rewrite Nat.add_succ_r. auto.
Qed.

Lemma elem_of_yields_tag name cs p x :
  (p, x) ∈ (sections_backwards_at [] (Tag name cs)).1 <->
  (p = [] /\ x = Tag name cs /\ String.eqb name "section" = true)
  \/ exists j c q,
       p = j :: q /\ cs !! j = Some c /\ is_section c = true
       /\ (q, x) ∈ (sections_backwards_at [] c).1.
Proof.
  rewrite yields_tag, elem_of_app, elem_of_yields_loop. split.
  - intros [H | H]; [right; exact H|]. left.
    destruct (String.eqb name "section"); [|apply elem_of_nil in H; tauto].
    apply list_elem_of_singleton in H. injection H as -> ->. auto.
  - intros [(-> & -> & Hn) | H]; [right | left; exact H].
    rewrite Hn. apply list_elem_of_singleton. reflexivity.
Qed.

(** Every yielded pair is an element of the tree at its position, reached
    through sections only. *)
Lemma yields_sound e :
  forall p x, (p, x) ∈ (sections_backwards_at [] e).1 ->
              element_at e p = Some x /\ section_chain e p = true.
Proof.
  induction e as [s | n cs IH | s] using PageElement_ind'; intros p x Hin.
  - apply elem_of_nil in Hin. tauto.
  - apply elem_of_yields_tag in Hin as [(-> & -> & Hn) | (j & c & q & -> & Hj & Hs & Hin)].
    + simpl. auto.
    + simpl. rewrite Hj, Hs. simpl.
      rewrite Forall_lookup in IH. apply (IH j c Hj). assumption.
  - apply elem_of_nil in Hin. tauto.
Qed.

(** Every section reached through sections only is yielded. *)
Lemma yields_complete e :
  forall p, section_chain e p = true ->
            exists x, (p, x) ∈ (sections_backwards_at [] e).1.
Proof.
  induction e as [s | n cs IH | s] using PageElement_ind'; intros p Hp.
  - destruct p; discriminate.
  - destruct p as [|j q].
    + exists (Tag n cs). apply elem_of_yields_tag. left. auto.
    + simpl in Hp. destruct (cs !! j) as [c|] eqn:Hj; [|discriminate].
      apply andb_prop in Hp as [Hs Hq].
      rewrite Forall_lookup in IH. destruct (IH j c Hj q Hq) as [x Hx].
      exists x. apply elem_of_yields_tag. right. eauto 10.
  - destruct p; discriminate.
Qed.

Lemma doc_before_irrefl p : ~ doc_before p p.
Proof. induction p as [|i p IH]; simpl; [tauto | intros [H | [_ H]]; [lia | auto]]. Qed.

Lemma StronglySorted_lookup {A} (R : relation A) l i j a b :
  StronglySorted R l -> l !! i = Some a -> l !! j = Some b -> i < j -> R a b.
Proof.
  intros Hs. revert i j. induction Hs as [|x l Hs IH Hx]; intros i j Hi Hj Hij.
  - discriminate.
  - destruct j as [|j]; [lia|]. simpl in Hj. destruct i as [|i].
    + simpl in Hi. injection Hi as ->.
      rewrite Forall_forall in Hx. apply Hx. eapply list_elem_of_lookup_2; eauto.
    + simpl in Hi. apply (IH i j); auto. lia.
Qed.

Lemma StronglySorted_elem_of_impl {A} (R1 R2 : relation A) l :
  (forall a b, a ∈ l -> b ∈ l -> R1 a b -> R2 a b) ->
  StronglySorted R1 l -> StronglySorted R2 l.
Proof.
  intros Himp Hs. induction Hs as [|x l Hs IH Hx].
  - constructor.
  - constructor.
    + apply IH. intros a b Ha Hb. apply Himp; apply elem_of_cons; auto.
    + rewrite Forall_forall in Hx |- *. intros y Hy.
      apply Himp; [apply elem_of_cons; auto | apply elem_of_cons; auto | auto].
Qed.

Lemma StronglySorted_irrefl_NoDup {A} (R : relation A) l :
  (forall a, ~ R a a) -> StronglySorted R l -> NoDup l.
Proof.
  intros Hirr Hs. induction Hs as [|x l Hs IH Hx]; constructor; auto.
  intros Hin. rewrite Forall_forall in Hx. apply (Hirr x), Hx, Hin.
Qed.

Lemma fst_prod_map_fmap {A B C} (f : A -> C) (l : list (A * B)) :
  (prod_map f id <$> l).*1 = f <$> l.*1.
Proof.
  rewrite <- !list_fmap_compose. apply list_fmap_ext. intros _ [a b] _. reflexivity.
Qed.

Lemma elem_of_fst {A B} (a : A) (l : list (A * B)) :
  a ∈ l.*1 <-> exists b, (a, b) ∈ l.
Proof.
  rewrite list_elem_of_fmap. split.
  - intros ([a' b] & -> & Hin). eauto.
  - intros (b & Hin). exists (a, b). auto.
Qed.

(** The positions yielded below a tag come in reverse document order. *)
Lemma yields_sorted e :
  StronglySorted (flip doc_before) (sections_backwards_at [] e).1.*1.
Proof.
  induction e as [s | n cs IH | s] using PageElement_ind'.
  - constructor.
  - rewrite yields_tag, fmap_app. apply StronglySorted_app_2.
    + intros p1 p2 H1 H2.
      destruct (String.eqb n "section"); [|apply elem_of_nil in H2; tauto].
      apply list_elem_of_singleton in H2. subst p2.
      apply elem_of_fst in H1 as [x H1].
      apply elem_of_yields_loop in H1 as (j & c & q & -> & _). simpl. exact I.
    + generalize 0 as i. induction IH as [|c cs Hc _ IHcs]; intros i.
      * constructor.
      * rewrite yields_loop_cons, fmap_app. apply StronglySorted_app_2.
        -- intros p1 p2 H1 H2.
           apply elem_of_fst in H1 as [x1 H1].
           apply elem_of_yields_loop in H1 as (j & c1 & q1 & -> & _).
           destruct (is_section c); [|apply elem_of_nil in H2; tauto].
           rewrite yields_relocate, fst_prod_map_fmap in H2.
           apply list_elem_of_fmap in H2 as (q2 & -> & _).
           simpl. left. lia.
        -- apply IHcs.
        -- destruct (is_section c); [|constructor].
           rewrite yields_relocate, fst_prod_map_fmap.
           eapply StronglySorted_fmap; [|exact Hc].
           intros a b Hab. simpl. right. split; [reflexivity | exact Hab].
    + destruct (String.eqb n "section"); repeat constructor.
  - constructor.
Qed.

Lemma element_at_app e p1 p2 :
  element_at e (p1 ++ p2) = element_at e p1 ≫= fun c => element_at c p2.
Proof.
  revert e. induction p1 as [|i p1 IH]; intros e; [reflexivity|].
  simpl. destruct e as [s | n cs | s]; [reflexivity| |reflexivity].
  destruct (cs !! i); [apply IH | reflexivity].
Qed.

(** A chain of sections passes through sections only. *)
Lemma section_chain_prefix e p1 p2 :
  section_chain e (p1 ++ p2) = true -> p1 <> [] ->
  exists c, element_at e p1 = Some c /\ is_section c = true.
Proof.
  revert e. induction p1 as [|i p1 IH]; intros e H Hne; [congruence|].
  simpl in *. destruct e as [s | n cs | s]; [discriminate| |discriminate].
  destruct (cs !! i) as [c|]; [|discriminate].
  apply andb_prop in H as [Hc H]. destruct p1 as [|i' p1].
  - exists c. auto.
  - apply IH; [assumption | discriminate].
Qed.

Lemma section_chain_app e p1 p2 c :
  element_at e p1 = Some c -> section_chain e p1 = true ->
  section_chain c p2 = true -> section_chain e (p1 ++ p2) = true.
Proof.
  revert e. induction p1 as [|i p1 IH]; intros e He H1 H2.
  - simpl in *. injection He as ->. assumption.
  - simpl in *. destruct e as [s | n cs | s]; [discriminate| |discriminate].
    destruct (cs !! i) as [c'|]; [|discriminate].
    apply andb_prop in H1 as [Hc H1]. rewrite Hc. simpl. eauto.
Qed.

Lemma find_tag_tag target pos n cs :
  find_tag target pos (Tag n cs) =
  if String.eqb n target then Some (pos, Tag n cs)
  else find_first target pos 0 cs.
Proof.
  simpl. destruct (String.eqb n target); [reflexivity|].
  generalize 0 as i. induction cs as [|c cs IH]; intros i; [reflexivity|].
  simpl. rewrite IH. reflexivity.
Qed.

(** What [find_tag] returns is a tag of the wanted name, at the position it
    is returned with. *)
Lemma find_tag_sound target e :
  forall pos0 pos b,
    find_tag target pos0 e = Some (pos, b) ->
    exists q, pos = pos0 ++ q /\ element_at e q = Some b
              /\ element_name b = Some target.
Proof.
  induction e as [s | n cs IH | s] using PageElement_ind'; intros pos0 pos b H.
  - discriminate.
  - rewrite find_tag_tag in H. destruct (String.eqb n target) eqn:Hn.
    + injection H as <- <-. exists []. rewrite app_nil_r.
      apply String.eqb_eq in Hn. subst n. auto.
    + assert (Hloop : forall i, find_first target pos0 i cs = Some (pos, b) ->
                exists j c q, cs !! j = Some c /\ pos = pos0 ++ (i + j) :: q
                              /\ element_at c q = Some b
                              /\ element_name b = Some target).
      { clear H Hn. induction IH as [|c cs Hc _ IHcs]; intros i H; [discriminate|].
        simpl in H. destruct (find_tag target (pos0 ++ [i]) c) as [r|] eqn:Hf.
        - injection H as ->. apply Hc in Hf as (q & -> & Hq & Hb).
          exists 0, c, q. rewrite Nat.add_0_r, <- app_assoc. auto.
        - apply IHcs in H as (j & c' & q & Hj & -> & Hq & Hb).
          exists (S j), c', q. rewrite Nat.add_succ_r. auto. }
      apply Hloop in H as (j & c & q & Hj & -> & Hq & Hb).
      exists (j :: q). simpl. rewrite Hj. auto.
  - discriminate.
Qed.

Lemma body_sound cs pos b :
  body cs = Some (pos, b) ->
  pos <> [] /\ element_at (Tag ROOT_TAG_NAME cs) pos = Some b
  /\ element_name b = Some "body".
Proof.
  unfold body. intros H.
  pose proof (find_tag_sound _ _ _ _ _ H) as (q & -> & Hq & Hb).
  split; [|auto]. simpl. intros ->. simpl in Hq. injection Hq as <-. discriminate.
Qed.

(** In a document with a body, the body's sections are yielded, then those of
    the document's top level. *)
Lemma sections_backwards_document cs pos b :
  body cs = Some (pos, b) ->
  sections_backwards (BeautifulSoup cs) =
  ((prod_map (app pos) id <$> (sections_backwards_at [] b).1)
     ++ (sections_backwards_at [] (Tag ROOT_TAG_NAME cs)).1, None).
Proof.
  intros H. unfold sections_backwards. rewrite H.
  destruct (body_sound _ _ _ H) as (_ & _ & Hb).
  assert (Ht : is_tag b = true)
    by (destruct b; [discriminate | reflexivity | discriminate]).
  pose proof (sections_backwards_at_no_raise b pos Ht) as H1.
  pose proof (sections_backwards_at_no_raise (Tag ROOT_TAG_NAME cs) [] eq_refl) as H2.
  unfold gen_then. rewrite H1. rewrite H2. rewrite (yields_relocate b pos).
  reflexivity.
Qed.

(** Nothing below the body is reached from the document's top level through
    sections only: the body is not a section. *)
Lemma below_body_not_top_level cs pos b q :
  body cs = Some (pos, b) ->
  section_chain (Tag ROOT_TAG_NAME cs) (pos ++ q) = false.
Proof.
  intros H. destruct (body_sound _ _ _ H) as (Hne & Hat & Hb).
  destruct (section_chain _ (pos ++ q)) eqn:Hc; [|reflexivity].
  apply section_chain_prefix in Hc as (c & Hc & Hs); [|assumption].
  rewrite Hat in Hc. injection Hc as <-.
  destruct b as [|n sub|]; [discriminate| |discriminate]. simpl in Hb, Hs.
  injection Hb as ->. discriminate.
Qed.

Lemma section_chain_end e p x :
  section_chain e p = true -> element_at e p = Some x -> is_section x = true.
Proof.
  revert e. induction p as [|i p IH]; intros e Hc Hx; simpl in *.
  - injection Hx as <-. assumption.
  - destruct e as [s | n cs | s]; [discriminate| |discriminate].
    destruct (cs !! i) as [c|]; [|discriminate].
    apply andb_prop in Hc as [_ Hc]. eauto.
Qed.

Lemma doc_before_app pos a b : doc_before a b -> doc_before (pos ++ a) (pos ++ b).
Proof. intros H. induction pos as [|i pos IH]; simpl; auto. Qed.

#[local] Arguments sections_backwards_at : simpl never.

(** C1, as the code has it: on a tag, or a document with a body,
    [sections_backwards] ends without raising and yields exactly the sections
    reached through sections only from the root (in a document also from the
    body), each once, in reverse document order; it yields nothing when there
    is no such section. *)
Theorem sections_backwards_enumeration (t : Tree) :
  well_rooted t ->
  let r := sections_backwards t in
  r.2 = None
  /\ (forall p x, (p, x) ∈ r.1 ->
                  element_at (tree_root t) p = Some x /\ is_section x = true)
  /\ (forall p, p ∈ r.1.*1 <-> enumerated t p)
  /\ NoDup r.1.*1
  /\ reverse_document_order t r.1.*1
  /\ ((forall p, ~ enumerated t p) -> r.1 = []).
Proof.
  intros Hw r.
  assert (Hempty : (forall p, p ∈ r.1.*1 <-> enumerated t p) ->
                   (forall p, ~ enumerated t p) -> r.1 = []).
  { intros Hiff Hnone. destruct (r.1) as [|[p x] l]; [reflexivity|].
    exfalso. apply (Hnone p), Hiff. simpl. apply elem_of_cons. auto. }
  destruct t as [cs | e]; simpl in Hw.
  - (* a document with a body *)
    destruct Hw as [[pos b] Hbody].
    pose proof (sections_backwards_document cs pos b Hbody) as Hr.
    fold r in Hr. destruct (body_sound _ _ _ Hbody) as (Hne & Hat & Hb).
    assert (Hmem : forall p, p ∈ r.1.*1 <-> enumerated (BeautifulSoup cs) p).
    { intros p. rewrite Hr. simpl. rewrite fmap_app, elem_of_app, fst_prod_map_fmap.
      unfold enumerated. simpl. split.
      - intros [H | H].
        + right. apply list_elem_of_fmap in H as (q & -> & H).
          apply elem_of_fst in H as [x H]. apply yields_sound in H as [_ H].
          exists pos, b, q. auto.
        + left. apply elem_of_fst in H as [x H]. apply yields_sound in H as [_ H].
          assumption.
      - intros [H | (pos' & b' & q & Hbody' & -> & H)].
        + right. apply elem_of_fst. apply yields_complete. assumption.
        + left. rewrite Hbody in Hbody'. injection Hbody' as <- <-.
          apply list_elem_of_fmap. exists q. split; [reflexivity|].
          apply elem_of_fst. apply yields_complete. assumption. }
    assert (Htop : forall q,
              q ∈ (sections_backwards_at [] (Tag ROOT_TAG_NAME cs)).1.*1 ->
              ~ below_body (BeautifulSoup cs) q).
    { intros q Hq (pos' & b' & q' & Hbody' & ->).
      apply elem_of_fst in Hq as [x Hq]. apply yields_sound in Hq as [_ Hq].
      rewrite (below_body_not_top_level _ _ _ _ Hbody') in Hq. discriminate. }
    assert (Hsorted : StronglySorted
              (fun p q =>
                 (below_body (BeautifulSoup cs) q -> below_body (BeautifulSoup cs) p)
                 /\ ((below_body (BeautifulSoup cs) p
                      -> below_body (BeautifulSoup cs) q) -> doc_before q p))
              r.1.*1).
    { rewrite Hr. simpl. rewrite fmap_app, fst_prod_map_fmap.
      apply StronglySorted_app_2.
      - intros p q Hp Hq.
        apply list_elem_of_fmap in Hp as (p' & -> & _).
        assert (Hp : below_body (BeautifulSoup cs) (pos ++ p'))
          by (simpl; eauto).
        split; [auto|]. intros H. exfalso. exact (Htop q Hq (H Hp)).
      - eapply StronglySorted_fmap; [|apply yields_sorted].
        intros a c Hac. split.
        + intros _. simpl. eauto.
        + intros _. apply doc_before_app. exact Hac.
      - eapply StronglySorted_elem_of_impl; [|apply yields_sorted].
        intros a c Ha Hc Hac. split.
        + intros H. exfalso. exact (Htop c Hc H).
        + intros _. exact Hac. }
    split; [rewrite Hr; reflexivity|].
    split.
    { intros p x. rewrite Hr. simpl. rewrite elem_of_app. intros [H | H].
      - apply list_elem_of_fmap in H as ([q y] & Heq & H).
        unfold prod_map in Heq. simpl in Heq. injection Heq as -> ->.
        apply yields_sound in H as [H1 H2]. split.
        + rewrite element_at_app, Hat. exact H1.
        + eapply section_chain_end; eauto.
      - apply yields_sound in H as [H1 H2]. split; [exact H1|].
        eapply section_chain_end; eauto. }
    split; [exact Hmem|].
    split.
    { eapply StronglySorted_irrefl_NoDup; [|exact Hsorted].
      intros a [_ H]. exact (doc_before_irrefl a (H (fun Ha => Ha))). }
    split; [|apply Hempty; exact Hmem].
    intros i j p q Hi Hj Hij.
    exact (StronglySorted_lookup _ _ _ _ _ _ Hsorted Hi Hj Hij).
  - (* a tag *)
    assert (Hmem : forall p, p ∈ r.1.*1 <-> enumerated (Element e) p).
    { intros p. unfold enumerated. simpl. rewrite elem_of_fst. split.
      - intros [x H]. left. apply yields_sound in H. tauto.
      - intros [H | []]. apply yields_complete. assumption. }
    split; [apply sections_backwards_at_no_raise; assumption|].
    split.
    { intros p x H. apply yields_sound in H as [H1 H2]. split; [exact H1|].
      eapply section_chain_end; eauto. }
    split; [exact Hmem|].
    split.
    { eapply StronglySorted_irrefl_NoDup; [|apply yields_sorted].
      intros a. apply doc_before_irrefl. }
    split; [|apply Hempty; exact Hmem].
    intros i j p q Hi Hj Hij. split; [intros []|]. intros _.
    exact (StronglySorted_lookup _ _ _ _ _ _ (yields_sorted e) Hi Hj Hij).
Qed.

Lemma sections_backwards_enumeration_witness :
  well_rooted sample_document
  /\ (sections_backwards sample_document).2 = None
  /\ NoDup (sections_backwards sample_document).1.*1.
Proof.
  assert (Hw : well_rooted sample_document) by (vm_compute; eauto).
  split; [exact Hw|].
  pose proof (sections_backwards_enumeration sample_document Hw) as H.
  simpl in H. tauto.
Defined.

Example sample_document_positions :
  (sections_backwards sample_document).1.*1 = [[0; 1; 2]; [0; 1; 0; 1]; [0; 1; 0]].
Proof. reflexivity. Qed.

(** C1 as stated fails: the section inside the [div] is an element of the
    tree, and nothing is yielded. *)
Lemma sections_backwards_misses_section_in_div :
  element_at div_body [0; 0]
    = Some (Tag "section" [Tag "h2" [NavigableString "T"]])
  /\ is_section (Tag "section" [Tag "h2" [NavigableString "T"]]) = true
  /\ sections_backwards (Element div_body) = ([], None).
Proof. repeat split; reflexivity. Qed.

(** A document without a body: the generator raises. *)
Example sections_backwards_no_body :
  sections_backwards (BeautifulSoup [Tag "p" [NavigableString "x"]])
  = ([], Some AttributeError).
Proof. reflexivity. Qed.

(** C10: what lies below an element that is not a section is never yielded,
    but for the step into the body of a document: the positions at or below
    the body, seen from an element at or above it. *)
Theorem sections_backwards_skips_non_sections
    (t : Tree) (q r : position) (c : PageElement) :
  q <> [] ->
  element_at (tree_root t) q = Some c ->
  is_section c = false ->
  ~ steps_into_body t q r ->
  q ++ r ∉ (sections_backwards t).1.*1.
Proof.
  intros Hq Hc Hs Hway Hin.
  assert (Htop : section_chain (tree_root t) (q ++ r) = false).
  { destruct (section_chain _ (q ++ r)) eqn:Hch; [|reflexivity].
    apply section_chain_prefix in Hch as (c' & Hc' & Hs'); [|assumption].
    congruence. }
  destruct t as [cs | e].
  - destruct (body cs) as [[pos b]|] eqn:Hbody.
    + rewrite (sections_backwards_document _ _ _ Hbody) in Hin. simpl in Hin.
      rewrite fmap_app, elem_of_app, fst_prod_map_fmap in Hin.
      destruct Hin as [Hin | Hin].
      * apply list_elem_of_fmap in Hin as (q' & Heq & Hin).
        apply elem_of_fst in Hin as [x Hin]. apply yields_sound in Hin as [_ Hin].
        destruct (body_sound _ _ _ Hbody) as (_ & Hat & _).
        apply app_eq_inv in Heq as [(k & -> & ->) | (k & -> & ->)].
        -- simpl in Hc. change (element_at (Tag ROOT_TAG_NAME cs) (pos ++ k) = Some c) in Hc.
           rewrite element_at_app, Hat in Hc. simpl in Hc.
           destruct k as [|i k].
           ++ apply Hway. simpl. exists pos, b, [], r.
              rewrite !app_nil_r. auto.
           ++ apply section_chain_prefix in Hin as (c' & Hc' & Hs'); [|discriminate].
              congruence.
        -- apply Hway. simpl. exists (q ++ k), b, k, q'. auto.
      * apply elem_of_fst in Hin as [x Hin]. apply yields_sound in Hin as [_ Hin].
        simpl in Htop. congruence.
    + unfold sections_backwards in Hin. rewrite Hbody in Hin.
      apply elem_of_nil in Hin. exact Hin.
  - simpl in *. apply elem_of_fst in Hin as [x Hin].
    apply yields_sound in Hin as [_ Hin]. congruence.
Qed.

Lemma sections_backwards_skips_non_sections_witness :
  ([0] ++ [0] ∉ (sections_backwards (Element div_body)).1.*1)
  /\ ([0] ++ [0] ∉ (sections_backwards section_beside_body).1.*1).
Proof.
  split.
  - apply (sections_backwards_skips_non_sections (Element div_body) [0] [0]
             (Tag "div" [Tag "section" [Tag "h2" [NavigableString "T"]]])).
    + discriminate.
    + reflexivity.
    + reflexivity.
    + simpl. tauto.
  - apply (sections_backwards_skips_non_sections section_beside_body [0] [0]
             (Tag "html"
                [Tag "section" [Tag "h2" [NavigableString "S"]];
                 Tag "body" [Tag "section" [Tag "h2" [NavigableString "B"]]]])).
    + discriminate.
    + reflexivity.
    + reflexivity.
    + intros (pos & b & s & r' & Hbody & Hpos & Hr).
      vm_compute in Hbody. injection Hbody as <- <-.
      destruct s as [|i s]; [discriminate|].
      injection Hpos as <- <-. discriminate.
Defined.

(** In the document with a section beside the body only the section of the
    body is yielded; in the document with a section after the body, the
    section of the body is yielded first, and the other order is not a
    reverse document order. *)
Example section_beside_body_yields :
  (sections_backwards section_beside_body).1.*1 = [[0; 1; 0]].
Proof. reflexivity. Qed.

Example section_after_body_yields :
  (sections_backwards section_after_body).1.*1 = [[0; 0]; [1]].
Proof. reflexivity. Qed.

Example section_after_body_order :
  ~ reverse_document_order section_after_body [[1]; [0; 0]].
Proof.
  intros H.
  destruct (H 0 1 [1] [0; 0] eq_refl eq_refl ltac:(lia)) as [H1 _].
  destruct H1 as (pos & b & q & Hbody & Hq).
  - simpl. exists [0], (Tag "body" [Tag "section" [Tag "h2" [NavigableString "B"]]]), [0].
    split; reflexivity.
  - vm_compute in Hbody. injection Hbody as <- <-. discriminate.
Qed.

(** ** [convert_to_json] *)

(** The lines printed: those of the pages that convert, up to the first that
    does not. *)
Lemma for_loop_lines E pages s ending d out :
  (for_loop E (enumerate pages s) ending d out).1.2 = out ++ converted_lines E pages.
Proof.
  revert s d out. induction pages as [|h pages IH]; intros s d out; simpl.
  - rewrite app_nil_r. reflexivity.
  - destruct (parse_prettify E h) as [wp | e]; simpl.
    + rewrite IH, <- app_assoc. reflexivity.
    + rewrite app_nil_r. reflexivity.
Qed.

(** Every page converts: the loop is left the way the reader ends, with the
    number of the last page in [doc_no]. *)
Lemma for_loop_all_convert E pages s ending d out :
  Forall (converts E) pages ->
  for_loop E (enumerate pages s) ending d out =
  (match pages with [] => d | _ :: _ => Some (s + length pages - 1) end,
   out ++ converted_lines E pages, ending).
Proof.
  intros H. revert s d out.
  induction H as [|h pages [wp Hh] _ IH]; intros s d out; simpl.
  - rewrite app_nil_r. reflexivity.
  - rewrite Hh. rewrite IH, <- app_assoc. simpl.
    destruct pages as [|h' pages]; simpl; do 3 f_equal; lia.
Qed.

(** A page that does not convert, after pages that do: the loop is left with
    that page's number in [doc_no]. *)
Lemma for_loop_failure E pre h post e s ending d out :
  Forall (converts E) pre ->
  parse_prettify E h = Raise e ->
  for_loop E (enumerate (pre ++ h :: post) s) ending d out =
  (Some (s + length pre), out ++ converted_lines E pre, Some e).
Proof.
  intros H Hh. revert s d out.
  induction H as [|h' pre [wp Hh'] _ IH]; intros s d out; simpl.
  - rewrite Hh, app_nil_r, Nat.add_0_r. reflexivity.
  - rewrite Hh'. rewrite IH, <- app_assoc. simpl.
    do 3 f_equal. lia.
Qed.

(** [doc_no] after the loop: still what it was, or the number of a page. *)
Lemma for_loop_doc_no E pages s ending d out n :
  (for_loop E (enumerate pages s) ending d out).1.1 = Some n ->
  d = Some n \/ (s <= n /\ pages <> []).
Proof.
  revert s d out. induction pages as [|h pages IH]; intros s d out; simpl.
  - auto.
  - destruct (parse_prettify E h) as [wp | e]; simpl.
    + intros H. apply IH in H as [H | [H _]].
      * injection H as <-. right. split; [lia | discriminate].
      * right. split; [lia | discriminate].
    + intros H. injection H as <-. right. split; [lia | discriminate].
Qed.

Lemma for_loop_no_pages E ending d out :
  for_loop E (enumerate [] 1) ending d out = (d, out, ending).
Proof. reflexivity. Qed.

(** The call when the output file opens, and when it does not. *)
Lemma convert_to_json_opened E i o w :
  gzip_open E o = None ->
  convert_to_json E i o w =
  let '(pages, ending) := enumerate_static_dump E i in
  let '(doc_no, outf, raised) := for_loop E (enumerate pages 1) ending None [] in
  leave_try i o doc_no raised
    (close_file o outf (gzip_open_wt o (log_call (Debug_converting i o) w))).
Proof. intros H. unfold convert_to_json. rewrite H. reflexivity. Qed.

Lemma convert_to_json_not_opened E i o w e :
  gzip_open E o = Some e ->
  convert_to_json E i o w
  = leave_try i o None (Some e) (log_call (Debug_converting i o) w).
Proof. intros H. unfold convert_to_json. rewrite H. reflexivity. Qed.

Lemma leave_try_files i o d raised w :
  files (leave_try i o d raised w).1 = files w.
Proof.
  unfold leave_try. destruct raised as [e|]; [destruct e|]; destruct d; reflexivity.
Qed.

Lemma leave_try_result i o d raised w w' :
  (leave_try i o d raised w).2 = (leave_try i o d raised w').2.
Proof.
  unfold leave_try. destruct raised as [e|]; [destruct e|]; destruct d; reflexivity.
Qed.

Lemma leave_try_unbound i o raised w :
  (leave_try i o None raised w).2 = Raise UnboundLocalError.
Proof. unfold leave_try. destruct raised as [e|]; [destruct e|]; reflexivity. Qed.

(** The handlers log at most one record, which announces no call. *)
Lemma leave_try_log i o d raised w :
  exists rest,
    log (leave_try i o d raised w).1 = log w ++ rest
    /\ omap converting_call rest = [].
Proof.
  unfold leave_try.
  destruct raised as [e|]; [destruct e|]; destruct d; simpl;
    try (exists []; rewrite app_nil_r; split; reflexivity);
    eexists [_]; split; reflexivity.
Qed.

(** Opened for writing and closed with [lines] printed, the file holds
    [lines]. *)
Lemma files_opened_closed o lines w :
  files (close_file o lines (gzip_open_wt o w)) = <[o := lines]> (files w).
Proof.
  unfold close_file, gzip_open_wt. simpl.
  apply map_eq. intros k. destruct (decide (k = o)) as [-> | Hne].
  - rewrite lookup_alter_eq, !lookup_insert_eq. reflexivity.
  - rewrite lookup_alter_ne, !lookup_insert_ne by congruence. reflexivity.
Qed.

(** The value or exception of a call does not depend on the world it is made
    in. *)
Lemma convert_to_json_result E i o w w' :
  (convert_to_json E i o w).2 = (convert_to_json E i o w').2.
Proof.
  unfold convert_to_json. destruct (gzip_open E o) as [e|].
  - apply leave_try_result.
  - destruct (enumerate_static_dump E i) as [pages ending].
    destruct (for_loop E (enumerate pages 1) ending None []) as [[d outf] raised].
    apply leave_try_result.
Qed.

(** The files after a call: when the output file opens it is set to the lines
    of the pages that converted and the others are as they were; when it does
    not open, the files are as they were. *)
Lemma convert_to_json_files E i o w :
  gzip_open E o = None ->
  files (convert_to_json E i o w).1
  = <[o := converted_lines E (enumerate_static_dump E i).1]> (files w).
Proof.
  intros Hopen. rewrite (convert_to_json_opened E i o w Hopen).
  destruct (enumerate_static_dump E i) as [pages ending] eqn:Hr.
  pose proof (for_loop_lines E pages 1 ending None []) as Hl.
  destruct (for_loop E (enumerate pages 1) ending None []) as [[d outf] raised].
  simpl in Hl. subst outf.
  rewrite leave_try_files, files_opened_closed. reflexivity.
Qed.

Lemma convert_to_json_files_not_opened E i o w e :
  gzip_open E o = Some e -> files (convert_to_json E i o w).1 = files w.
Proof.
  intros Hopen. rewrite (convert_to_json_not_opened E i o w e Hopen).
  rewrite leave_try_files. reflexivity.
Qed.

(** The output file after a call that opened it, whatever the outcome: the
    lines of the pages that converted. *)
Lemma convert_to_json_file E i o w :
  gzip_open E o = None ->
  files (convert_to_json E i o w).1 !! o
  = Some (converted_lines E (enumerate_static_dump E i).1).
Proof.
  intros Hopen. rewrite (convert_to_json_files E i o w Hopen).
  apply lookup_insert_eq.
Qed.

(** No other file is touched. *)
Lemma convert_to_json_frame E i o w o' :
  o' <> o -> files (convert_to_json E i o w).1 !! o' = files w !! o'.
Proof.
  intros Hne. destruct (gzip_open E o) as [e|] eqn:Hopen.
  - rewrite (convert_to_json_files_not_opened E i o w e Hopen). reflexivity.
  - rewrite (convert_to_json_files E i o w Hopen).
    apply lookup_insert_ne. congruence.
Qed.

(** A call that returns a count has opened its output file. *)
Lemma convert_to_json_return_opened E i o w n :
  (convert_to_json E i o w).2 = Return n -> gzip_open E o = None.
Proof.
  intros H. destruct (gzip_open E o) as [e|] eqn:Hopen; [|reflexivity].
  rewrite (convert_to_json_not_opened E i o w e Hopen), leave_try_unbound in H.
  discriminate.
Qed.

Lemma converted_lines_prefix E pages :
  exists k,
    Forall2 (line_for E) (take k pages) (converted_lines E pages)
    /\ (k = length pages
        \/ exists h e, pages !! k = Some h /\ parse_prettify E h = Raise e).
Proof.
  induction pages as [|h pages (k & IH1 & IH2)]; simpl.
  - exists 0. split; [constructor | auto].
  - destruct (parse_prettify E h) as [wp | e] eqn:Hh.
    + exists (S k). simpl. split.
      * constructor; [exists wp; auto | exact IH1].
      * destruct IH2 as [-> | IH2]; auto.
    + exists 0. simpl. split; [constructor | eauto].
Qed.

Lemma converted_lines_all E pages :
  Forall (converts E) pages ->
  Forall2 (line_for E) pages (converted_lines E pages).
Proof.
  induction 1 as [|h pages [wp Hh] _ IH]; simpl; [constructor|].
  rewrite Hh. constructor; [exists wp; auto | exact IH].
Qed.

(** A truncated archive with at least one page, all of whose pages convert,
    and an output file that opens: the count of the pages is returned and the
    file holds their lines, in order. *)
Lemma convert_to_json_truncated E i o w pages :
  gzip_open E o = None ->
  enumerate_static_dump E i = (pages, Some EOFError) ->
  pages <> [] ->
  Forall (converts E) pages ->
  (convert_to_json E i o w).2 = Return (length pages)
  /\ exists lines,
       files (convert_to_json E i o w).1 !! o = Some lines
       /\ Forall2 (line_for E) pages lines.
Proof.
  intros Hopen Hr Hne Hall. split.
  - rewrite (convert_to_json_opened E i o w Hopen), Hr.
    rewrite (for_loop_all_convert E pages 1 (Some EOFError) None [] Hall).
    destruct pages as [|h pages]; [congruence|]. simpl.
    reflexivity.
  - exists (converted_lines E pages). split.
    + rewrite (convert_to_json_file E i o w Hopen), Hr. reflexivity.
    + apply converted_lines_all. exact Hall.
Qed.

(** C2 at an archive that is truncated before its first page: the call raises
    [UnboundLocalError] instead of returning 0.  The file is there and empty,
    and the [EOFError] was logged. *)
Theorem convert_to_json_truncated_before_first_page :
  let r := convert_to_json sample_env "in/cut0.zim" "out/cut0.zim" empty_world in
  enumerate_static_dump sample_env "in/cut0.zim" = ([], Some EOFError)
  /\ r.2 = Raise UnboundLocalError
  /\ files r.1 !! "out/cut0.zim" = Some []
  /\ log r.1 = [Debug_converting "in/cut0.zim" "out/cut0.zim"; Error_eof EOFError].
Proof. repeat split; vm_compute; reflexivity. Qed.

(** The same call on an archive truncated after its second page returns 2. *)
Example convert_to_json_truncated_after_two :
  (convert_to_json sample_env "in/cut2.zim" "out/cut2.zim" empty_world).2 = Return 2.
Proof. reflexivity. Qed.

(** A page that does not convert, for a reason other than [EOFError]: the
    record and the page's number are logged and the exception is raised
    again. *)
Lemma convert_to_json_conversion_error E i o w pre h post ending e :
  gzip_open E o = None ->
  enumerate_static_dump E i = (pre ++ h :: post, ending) ->
  Forall (converts E) pre ->
  parse_prettify E h = Raise e ->
  e <> EOFError ->
  (convert_to_json E i o w).2 = Raise e
  /\ exists l, log (convert_to_json E i o w).1
               = l ++ [Exception_in i (S (length pre)) e].
Proof.
  intros Hopen Hr Hpre Hh He.
  rewrite (convert_to_json_opened E i o w Hopen), Hr.
  rewrite (for_loop_failure E pre h post e 1 ending None [] Hpre Hh).
  unfold leave_try.
  destruct e; try congruence; simpl; (split; [reflexivity | eauto]).
Qed.

(** Whatever leaves the loop other than [EOFError], the call raises. *)
Lemma convert_to_json_error_raises E i o w d outf e :
  for_loop E (enumerate (enumerate_static_dump E i).1 1)
    (enumerate_static_dump E i).2 None [] = (d, outf, Some e) ->
  e <> EOFError ->
  exists e', (convert_to_json E i o w).2 = Raise e'.
Proof.
  intros Hl He. destruct (gzip_open E o) as [e0|] eqn:Hopen.
  - rewrite (convert_to_json_not_opened E i o w e0 Hopen), leave_try_unbound.
    eauto.
  - rewrite (convert_to_json_opened E i o w Hopen).
    destruct (enumerate_static_dump E i) as [pages ending]. simpl in Hl.
    rewrite Hl. unfold leave_try.
    destruct e; try congruence; destruct d; simpl; eauto.
Qed.

(** C4 at archives whose reader fails with an I/O error: on the first page
    the call raises [UnboundLocalError] and logs no failure; on the second
    page it logs document 1. *)
Theorem convert_to_json_read_error :
  let r0 := convert_to_json sample_env "in/io0.zim" "out/io0.zim" empty_world in
  let r1 := convert_to_json sample_env "in/io1.zim" "out/io1.zim" empty_world in
  (r0.2 = Raise UnboundLocalError /\ omap logged_failure (log r0.1) = [])
  /\ (r1.2 = Raise (OtherError "OSError")
      /\ omap logged_failure (log r1.1) = [("in/io1.zim", 1)]).
Proof. repeat split; vm_compute; reflexivity. Qed.

(** The same defect when the output file does not open: nothing is logged
    of the failure, [UnboundLocalError] is raised and no file is made. *)
Example convert_to_json_open_error :
  let r := convert_to_json sample_env "in/full.zim" "missing/full.zim"
             empty_world in
  r.2 = Raise UnboundLocalError
  /\ omap logged_failure (log r.1) = []
  /\ files r.1 !! "missing/full.zim" = None.
Proof. repeat split; vm_compute; reflexivity. Qed.

(** C7 as stated fails: for an archive without pages nothing is emitted, and
    the output file, absent before the call, is there after it. *)
Lemma convert_to_json_creates_file_without_records :
  (enumerate_static_dump sample_env "in/empty.zim").1 = []
  /\ files empty_world !! "out/empty.zim" = None
  /\ files (convert_to_json sample_env "in/empty.zim" "out/empty.zim"
              empty_world).1 !! "out/empty.zim" = Some [].
Proof. repeat split; vm_compute; reflexivity. Qed.

(** C7, as the code has it: a call whose output file opens leaves the file in
    place, holding nothing of what it held before but one line for each page
    of a prefix of the pages, in the order of the reader, the prefix ending
    at the first page that does not convert, be it empty; a call whose output
    file does not open makes no file and changes none; and no call touches
    another file. *)
Theorem convert_to_json_output_file E i o w :
  let w' := (convert_to_json E i o w).1 in
  let pages := (enumerate_static_dump E i).1 in
  (gzip_open E o = None ->
   exists k lines,
     files w' !! o = Some lines
     /\ Forall2 (line_for E) (take k pages) lines
     /\ (k = length pages
         \/ exists h e, pages !! k = Some h /\ parse_prettify E h = Raise e))
  /\ (gzip_open E o <> None -> files w' = files w)
  /\ (forall o', o' <> o -> files w' !! o' = files w !! o').
Proof.
  intros w' pages. split; [|split].
  - intros Hopen. destruct (converted_lines_prefix E pages) as (k & H1 & H2).
    exists k, (converted_lines E pages). split; [|auto].
    apply convert_to_json_file. exact Hopen.
  - intros Hopen. destruct (gzip_open E o) as [e|] eqn:He; [|congruence].
    apply (convert_to_json_files_not_opened E i o w e He).
  - intros o' Hne. apply convert_to_json_frame. exact Hne.
Qed.

Lemma convert_to_json_output_file_witness :
  (exists k lines,
      files (convert_to_json sample_env "in/bad2.zim" "out/bad2.zim"
               empty_world).1 !! "out/bad2.zim" = Some lines
      /\ Forall2 (line_for sample_env)
           (take k (enumerate_static_dump sample_env "in/bad2.zim").1) lines
      /\ (k = length (enumerate_static_dump sample_env "in/bad2.zim").1
          \/ exists h e,
               (enumerate_static_dump sample_env "in/bad2.zim").1 !! k = Some h
               /\ parse_prettify sample_env h = Raise e))
  /\ files (convert_to_json sample_env "in/full.zim" "missing/full.zim"
              empty_world).1 = files empty_world.
Proof.
  split.
  - apply (proj1 (convert_to_json_output_file sample_env "in/bad2.zim"
                    "out/bad2.zim" empty_world)).
    reflexivity.
  - apply (proj1 (proj2 (convert_to_json_output_file sample_env "in/full.zim"
                           "missing/full.zim" empty_world))).
    discriminate.
Defined.

(** C9: an archive whose reader yields no page makes the call raise
    [UnboundLocalError], however the reader ends; and no call returns 0. *)
Theorem convert_to_json_never_returns_zero E i o w :
  ((enumerate_static_dump E i).1 = [] ->
   (convert_to_json E i o w).2 = Raise UnboundLocalError)
  /\ (forall n, (convert_to_json E i o w).2 = Return n -> 0 < n).
Proof.
  split.
  - destruct (gzip_open E o) as [e0|] eqn:Hopen.
    + intros _. rewrite (convert_to_json_not_opened E i o w e0 Hopen).
      apply leave_try_unbound.
    + rewrite (convert_to_json_opened E i o w Hopen).
      destruct (enumerate_static_dump E i) as [pages ending]. simpl. intros ->.
      rewrite for_loop_no_pages. apply leave_try_unbound.
  - intros n H. pose proof (convert_to_json_return_opened E i o w n H) as Hopen.
    revert H. rewrite (convert_to_json_opened E i o w Hopen).
    destruct (enumerate_static_dump E i) as [pages ending].
    pose proof (for_loop_doc_no E pages 1 ending None []) as Hd.
    destruct (for_loop E (enumerate pages 1) ending None []) as [[d outf] raised].
    simpl in Hd. unfold leave_try.
    destruct raised as [e|]; [destruct e|]; destruct d as [m|]; simpl;
      intros H; try discriminate; injection H as <-;
      destruct (Hd m eq_refl) as [? | [? _]]; try discriminate; lia.
Qed.

Lemma convert_to_json_never_returns_zero_witness :
  (enumerate_static_dump sample_env "in/empty.zim").1 = []
  /\ (convert_to_json sample_env "in/empty.zim" "out/empty.zim" empty_world).2
     = Raise UnboundLocalError.
Proof.
  split; [reflexivity|].
  apply (proj1 (convert_to_json_never_returns_zero sample_env "in/empty.zim"
                  "out/empty.zim" empty_world)).
  reflexivity.
Defined.

(** ** Paths *)

Lemma has_sep_app a b : has_sep (a +:+ b) = (has_sep a || has_sep b)%bool.
Proof.
  induction a as [|c a IH]; [reflexivity|].
  rewrite string_app_cons. simpl. rewrite IH. apply orb_assoc.
Qed.

Lemma basename_no_sep f : has_sep f = false -> basename f = f.
Proof.
  destruct f as [|c f]; simpl; [reflexivity|]. intros H.
  apply orb_false_elim in H as [Hc Hf]. rewrite Hf, Hc. reflexivity.
Qed.

Lemma basename_app_sep d f :
  has_sep f = false -> basename (d +:+ "/" +:+ f) = f.
Proof.
  intros Hf. induction d as [|c d IH].
  - rewrite string_app_nil_l, string_app_cons, string_app_nil_l. simpl.
    rewrite Hf. reflexivity.
  - rewrite string_app_cons. simpl.
    rewrite has_sep_app, string_app_cons. simpl. rewrite orb_true_r. exact IH.
Qed.

Lemma ends_with_sep_inv d : ends_with_sep d = true -> exists d', d = d' +:+ "/".
Proof.
  induction d as [|c d IH]; simpl; [discriminate|].
  destruct d as [|c' d].
  - intros H. apply Ascii.eqb_eq in H. subst c. exists "". reflexivity.
  - intros H. destruct (IH H) as [d' Hd']. exists (String c d').
    rewrite string_app_cons, <- Hd'. reflexivity.
Qed.

Lemma no_sep_starts f : has_sep f = false -> starts_with_sep f = false.
Proof.
  destruct f as [|c f]; simpl; [reflexivity|]. intros H.
  apply orb_false_elim in H as [Hc _]. exact Hc.
Qed.

(** The joined path has the name it was joined from as its base name. *)
Lemma basename_op_join d f : has_sep f = false -> basename (op_join d f) = f.
Proof.
  intros Hf. unfold op_join. rewrite (no_sep_starts f Hf).
  destruct (String.eqb d "") eqn:Hd; simpl.
  - apply String.eqb_eq in Hd. subst d. rewrite string_app_nil_l.
    apply basename_no_sep. exact Hf.
  - destruct (ends_with_sep d) eqn:He.
    + apply ends_with_sep_inv in He as [d' ->].
      rewrite string_app_assoc. apply basename_app_sep. exact Hf.
    + apply basename_app_sep. exact Hf.
Qed.

(** ** [main] *)

(** A call logs its start first, and announces no other call. *)
Lemma convert_to_json_log E i o w :
  exists rest,
    log (convert_to_json E i o w).1 = log w ++ Debug_converting i o :: rest
    /\ omap converting_call rest = [].
Proof.
  unfold convert_to_json. destruct (gzip_open E o) as [e|].
  - destruct (leave_try_log i o None (Some e)
                (log_call (Debug_converting i o) w)) as (rest & Hl & Hrest).
    exists rest. rewrite Hl. simpl. rewrite <- app_assoc. auto.
  - destruct (enumerate_static_dump E i) as [pages ending].
    destruct (for_loop E (enumerate pages 1) ending None []) as [[d outf] raised].
    destruct (leave_try_log i o d raised
                (close_file o outf
                   (gzip_open_wt o (log_call (Debug_converting i o) w))))
      as (rest & Hl & Hrest).
    exists rest. rewrite Hl. simpl. rewrite <- app_assoc. auto.
Qed.

(** A call leaves the files that exist in existence. *)
Lemma convert_to_json_keeps E i o w o' :
  is_Some (files w !! o') -> is_Some (files (convert_to_json E i o w).1 !! o').
Proof.
  intros H. destruct (decide (o' = o)) as [-> | Hne].
  - destruct (gzip_open E o) as [e|] eqn:Hopen.
    + rewrite (convert_to_json_files_not_opened E i o w e Hopen). exact H.
    + rewrite (convert_to_json_file E i o w Hopen). eauto.
  - rewrite convert_to_json_frame by exact Hne. exact H.
Qed.

(** *** The batches *)

Lemma get_tasks_from_concat {A} size room (batch l : list A) :
  concat (get_tasks_from size room batch l) = reverse batch ++ l.
Proof.
  revert room batch. induction l as [|x l IH]; intros room batch; simpl.
  - destruct batch; simpl; rewrite ?app_nil_r; reflexivity.
  - destruct room as [|room]; simpl.
    + rewrite IH. reflexivity.
    + rewrite IH, reverse_cons, <- app_assoc. reflexivity.
Qed.

(** The batches hold the tasks, each once, in order. *)
Lemma get_tasks_concat {A} size (l : list A) :
  size <> 0 \/ l = [] -> concat (get_tasks size l) = l.
Proof.
  intros H. unfold get_tasks. destruct size as [|size].
  - destruct H as [H | ->]; [congruence | reflexivity].
  - rewrite get_tasks_from_concat. reflexivity.
Qed.

Lemma map_chunksize_pos n processes :
  n <> 0 -> processes <> 0 -> map_chunksize n processes <> 0.
Proof.
  intros Hn Hp. unfold map_chunksize.
  destruct (n mod (processes * 4) =? 0)%nat eqn:Hm; [|discriminate].
  apply Nat.eqb_eq in Hm.
  pose proof (Nat.div_mod_eq n (processes * 4)) as Hd.
  intros Hq. rewrite Hq, Hm in Hd. lia.
Qed.

Lemma run_batch_app {A} (func : string -> string -> world -> world * result A)
    b1 b2 w :
  run_batch func (b1 ++ b2) w =
  match run_batch func b1 w with
  | (w1, Raise e) => (w1, Raise e)
  | (w1, Return l1) =>
      let '(w2, r) := run_batch func b2 w1 in
      (w2, match r with
           | Return l2 => Return (l1 ++ l2)
           | Raise e => Raise e
           end)
  end.
Proof.
  revert w. induction b1 as [|[i o] b1 IH]; intros w; simpl.
  - destruct (run_batch func b2 w) as [w2 [l2 | e]]; reflexivity.
  - destruct (func i o w) as [w1 [a | e]]; [|reflexivity].
    rewrite IH. destruct (run_batch func b1 w1) as [w2 [l1 | e]]; [|reflexivity].
    destruct (run_batch func b2 w2) as [w3 [l2 | e]]; reflexivity.
Qed.

(** When no batch raises, the batches were run as one batch is. *)
Lemma run_batches_return {A}
    (func : string -> string -> world -> world * result A) bs w counts :
  gather (run_batches func bs w).2 = Return counts ->
  run_batch func (concat bs) w = ((run_batches func bs w).1, Return counts).
Proof.
  revert w counts. induction bs as [|b bs IH]; intros w counts; simpl.
  - intros H. injection H as <-. reflexivity.
  - rewrite run_batch_app.
    destruct (run_batch func b w) as [w1 [l1 | e]].
    + specialize (IH w1).
      destruct (run_batches func bs w1) as [w2 rs]. simpl in *.
      destruct (gather rs) as [l2 | e]; [|discriminate].
      intros H. injection H as <-. rewrite (IH l2 eq_refl). reflexivity.
    + destruct (run_batches func bs w1) as [w2 rs]. simpl. discriminate.
Qed.

(** When the tasks run as one batch raise nothing, no batch raises. *)
Lemma run_batches_all_return {A}
    (func : string -> string -> world -> world * result A) bs w counts :
  (run_batch func (concat bs) w).2 = Return counts ->
  gather (run_batches func bs w).2 = Return counts.
Proof.
  revert w counts. induction bs as [|b bs IH]; intros w counts; simpl.
  - auto.
  - rewrite run_batch_app.
    destruct (run_batch func b w) as [w1 [l1 | e]]; [|discriminate].
    specialize (IH w1).
    destruct (run_batch func (concat bs) w1) as [w2 [l2 | e]]; [|discriminate].
    destruct (run_batches func bs w1) as [w3 rs]. simpl in *.
    intros H. injection H as <-. rewrite (IH l2 eq_refl). reflexivity.
Qed.

(** *** What the calls of a batch do *)

(** The calls touch no file but the output files of their tasks. *)
Lemma run_batch_frame E batch w path :
  path ∉ batch.*2 ->
  files (run_batch (convert_to_json E) batch w).1 !! path = files w !! path.
Proof.
  revert w. induction batch as [|[i o] batch IH]; intros w Hnot; simpl.
  - reflexivity.
  - rewrite fmap_cons, not_elem_of_cons in Hnot. destruct Hnot as [Hne Hnot].
    simpl in Hne.
    pose proof (convert_to_json_frame E i o w path Hne) as H1.
    destruct (convert_to_json E i o w) as [w1 [a | e]]; simpl in H1.
    + specialize (IH w1 Hnot).
      destruct (run_batch (convert_to_json E) batch w1) as [w2 r]. simpl in *.
      congruence.
    + exact H1.
Qed.

Lemma run_batches_frame E bs w path :
  path ∉ (concat bs).*2 ->
  files (run_batches (convert_to_json E) bs w).1 !! path = files w !! path.
Proof.
  revert w. induction bs as [|b bs IH]; intros w Hnot; simpl.
  - reflexivity.
  - simpl in Hnot. rewrite fmap_app, elem_of_app in Hnot.
    pose proof (run_batch_frame E b w path ltac:(tauto)) as H1.
    destruct (run_batch (convert_to_json E) b w) as [w1 r]. simpl in H1.
    specialize (IH w1 ltac:(tauto)).
    destruct (run_batches (convert_to_json E) bs w1) as [w2 rs]. simpl in *.
    congruence.
Qed.

Lemma run_batch_keeps E batch w p :
  is_Some (files w !! p) ->
  is_Some (files (run_batch (convert_to_json E) batch w).1 !! p).
Proof.
  revert w. induction batch as [|[i o] batch IH]; intros w H; simpl; [exact H|].
  pose proof (convert_to_json_keeps E i o w p H) as H1.
  destruct (convert_to_json E i o w) as [w1 [a | e]]; simpl in H1; [|exact H1].
  specialize (IH w1 H1).
  destruct (run_batch (convert_to_json E) batch w1) as [w2 r]. exact IH.
Qed.

(** The calls announced in the log are those of the tasks up to the first
    call that raises: each task at most once, all of them when none
    raises. *)
Lemma run_batch_calls E batch w :
  exists called,
    omap converting_call (log (run_batch (convert_to_json E) batch w).1)
    = omap converting_call (log w) ++ called
    /\ called `sublist_of` batch
    /\ (forall counts,
          (run_batch (convert_to_json E) batch w).2 = Return counts ->
          called = batch).
Proof.
  revert w. induction batch as [|[i o] batch IH]; intros w; simpl.
  - exists []. rewrite app_nil_r. repeat split. constructor.
  - destruct (convert_to_json_log E i o w) as (rest & Hl & Hrest).
    assert (Hcc : omap converting_call (log (convert_to_json E i o w).1)
                  = omap converting_call (log w) ++ [(i, o)]).
    { rewrite Hl, omap_app.
      change (omap converting_call (Debug_converting i o :: rest))
        with ((i, o) :: omap converting_call rest).
      rewrite Hrest. reflexivity. }
    destruct (convert_to_json E i o w) as [w1 [a | e]]; simpl in Hcc.
    + destruct (IH w1) as (called & Hc & Hsub & Hall).
      destruct (run_batch (convert_to_json E) batch w1) as [w2 r]. simpl in *.
      exists ((i, o) :: called). rewrite Hc, Hcc, <- app_assoc.
      repeat split; [constructor; exact Hsub|].
      intros counts H. destruct r as [l | e]; [|discriminate].
      rewrite (Hall l eq_refl). reflexivity.
    + exists [(i, o)]. simpl. repeat split; [exact Hcc | |discriminate].
      constructor. apply sublist_nil_l.
Qed.

Lemma run_batches_calls E bs w :
  exists called,
    omap converting_call (log (run_batches (convert_to_json E) bs w).1)
    = omap converting_call (log w) ++ called
    /\ called `sublist_of` concat bs.
Proof.
  revert w. induction bs as [|b bs IH]; intros w; simpl.
  - exists []. rewrite app_nil_r. split; [reflexivity | constructor].
  - destruct (run_batch_calls E b w) as (c1 & H1 & Hs1 & _).
    destruct (run_batch (convert_to_json E) b w) as [w1 r]. simpl in H1.
    destruct (IH w1) as (c2 & H2 & Hs2).
    destruct (run_batches (convert_to_json E) bs w1) as [w2 rs]. simpl in *.
    exists (c1 ++ c2). rewrite H2, H1, <- app_assoc.
    split; [reflexivity | apply sublist_app; assumption].
Qed.

(** A batch returns exactly when each of its calls does, whatever the world;
    the counts are then those of the calls. *)
Lemma run_batch_returns E batch w counts :
  (run_batch (convert_to_json E) batch w).2 = Return counts <->
  map (fun t => (convert_to_json E t.1 t.2 empty_world).2) batch
  = Return <$> counts.
Proof.
  revert w counts. induction batch as [|[i o] batch IH]; intros w counts; simpl.
  - split.
    + intros H. injection H as <-. reflexivity.
    + destruct counts; [reflexivity | discriminate].
  - rewrite (convert_to_json_result E i o empty_world w).
    destruct (convert_to_json E i o w) as [w1 [a | e]]; simpl.
    + specialize (IH w1).
      destruct (run_batch (convert_to_json E) batch w1) as [w2 [l | e]];
        simpl in *.
      * split.
        -- intros H. injection H as <-. simpl. f_equal. apply IH. reflexivity.
        -- destruct counts as [|c counts]; [discriminate|]. simpl.
           intros H. injection H as -> H. apply IH in H. injection H as ->.
           reflexivity.
      * split; [discriminate|].
        destruct counts as [|c counts]; [discriminate|]. simpl.
        intros H. injection H as -> H. apply IH in H. discriminate.
    + split; [discriminate|]. destruct counts; discriminate.
Qed.

(** After a batch that returns, the output file of every task is there. *)
Lemma run_batch_files E batch w counts i o :
  (run_batch (convert_to_json E) batch w).2 = Return counts ->
  (i, o) ∈ batch ->
  is_Some (files (run_batch (convert_to_json E) batch w).1 !! o).
Proof.
  revert w counts. induction batch as [|[i' o'] batch IH]; intros w counts Hret Hin.
  - apply elem_of_nil in Hin. tauto.
  - simpl in *.
    pose proof (convert_to_json_return_opened E i' o' w) as Hopen.
    pose proof (convert_to_json_file E i' o' w) as Hfile.
    destruct (convert_to_json E i' o' w) as [w1 [a | e]]; [|discriminate].
    simpl in *. specialize (Hfile (Hopen a eq_refl)).
    pose proof (run_batch_keeps E batch w1) as Hkeep.
    specialize (IH w1).
    destruct (run_batch (convert_to_json E) batch w1) as [w2 [l | e]];
      [|discriminate].
    simpl in *. apply elem_of_cons in Hin as [Heq | Hin].
    + injection Heq as -> ->. apply Hkeep. eauto.
    + eapply IH; eauto.
Qed.

(** *** [main] in terms of the batches *)

Lemma main_eq E args w :
  processes args <> 0 ->
  main E args w =
  let w0 := log_call (Info_scheduled (length (in_out_files E args))) w in
  let run := run_batches (convert_to_json E) (task_batches E args) w0 in
  match gather run.2 with
  | Raise e => (run.1, Raise e)
  | Return counts => (log_call (Info_done (sum counts)) run.1, Return tt)
  end.
Proof.
  intros Hp. unfold main, starmap, task_batches.
  apply Nat.eqb_neq in Hp. rewrite Hp. simpl.
  destruct (run_batches (convert_to_json E) _ _) as [w1 rs]. reflexivity.
Qed.

Lemma task_batches_concat E args :
  processes args <> 0 -> concat (task_batches E args) = in_out_files E args.
Proof.
  intros Hp. unfold task_batches. apply get_tasks_concat.
  destruct (in_out_files E args) as [|t l] eqn:Ht; [right; reflexivity|].
  left. apply map_chunksize_pos; [discriminate | exact Hp].
Qed.

Lemma worker_results_tasks E args :
  map (fun t => (convert_to_json E t.1 t.2 empty_world).2) (in_out_files E args)
  = worker_results E args.
Proof. unfold in_out_files, worker_results. rewrite map_map. reflexivity. Qed.

(** When every worker returns, [main] returns, having run the tasks as one
    batch is run, and logs the sum of the counts last. *)
Lemma main_all_return E args w counts :
  processes args <> 0 ->
  worker_results E args = Return <$> counts ->
  let w0 := log_call (Info_scheduled (length (in_out_files E args))) w in
  main E args w
  = (log_call (Info_done (sum counts))
       (run_batch (convert_to_json E) (in_out_files E args) w0).1, Return tt)
  /\ (run_batch (convert_to_json E) (in_out_files E args) w0).2 = Return counts.
Proof.
  intros Hp Hres w0.
  assert (Hb : (run_batch (convert_to_json E) (in_out_files E args) w0).2
               = Return counts).
  { apply run_batch_returns. rewrite worker_results_tasks. exact Hres. }
  split; [|exact Hb].
  rewrite (main_eq E args w Hp). fold w0. simpl.
  rewrite <- (task_batches_concat E args Hp) in Hb.
  pose proof (run_batches_all_return _ _ _ _ Hb) as Hg.
  pose proof (run_batches_return _ _ _ _ Hg) as Hrun.
  rewrite Hg. rewrite (task_batches_concat E args Hp) in Hrun.
  rewrite Hrun. reflexivity.
Qed.

(** [main] returns only when every worker does. *)
Lemma main_return_inv E args w :
  (main E args w).2 = Return tt ->
  processes args <> 0
  /\ exists counts, worker_results E args = Return <$> counts.
Proof.
  intros H.
  assert (Hp : processes args <> 0).
  { intros Hp. unfold main in H. rewrite Hp in H. simpl in H. discriminate. }
  split; [exact Hp|].
  rewrite (main_eq E args w Hp) in H. simpl in H.
  destruct (gather (run_batches (convert_to_json E) (task_batches E args) _).2)
    as [counts | e] eqn:Hg; [|discriminate].
  exists counts.
  pose proof (run_batches_return _ _ _ _ Hg) as Hrun.
  rewrite (task_batches_concat E args Hp) in Hrun.
  rewrite <- worker_results_tasks. eapply run_batch_returns.
  rewrite Hrun. reflexivity.
Qed.

Lemma omap_converting_call_snoc l r :
  converting_call r = None ->
  omap converting_call (l ++ [r]) = omap converting_call l.
Proof.
  intros H. rewrite omap_app.
  change (omap converting_call [r])
    with (match converting_call r with Some y => [y] | None => [] end).
  rewrite H, app_nil_r. reflexivity.
Qed.

(** C6 as stated fails: of five listed files given to one process, the first
    one's worker raises, and the second file, a task of the same batch, gets
    no call and no output file; no total is reported. *)
Lemma main_drops_task_after_failure :
  listdir failing_env (input_dir one_process_args)
  = ["cut0.zim"; "a.zim"; "b.zim"; "c.zim"; "d.zim"]
  /\ task_batches failing_env one_process_args
     = [[("in/cut0.zim", "out/cut0.zim"); ("in/a.zim", "out/a.zim")];
        [("in/b.zim", "out/b.zim"); ("in/c.zim", "out/c.zim")];
        [("in/d.zim", "out/d.zim")]]
  /\ (convert_to_json failing_env "in/cut0.zim" "out/cut0.zim" empty_world).2
     = Raise UnboundLocalError
  /\ (("in/a.zim", "out/a.zim")
        ∉ omap converting_call
            (log (main failing_env one_process_args empty_world).1))
  /\ files (main failing_env one_process_args empty_world).1 !! "out/a.zim" = None
  /\ (main failing_env one_process_args empty_world).2 = Raise UnboundLocalError.
Proof.
  split; [reflexivity|]. split; [vm_compute; reflexivity|].
  split; [vm_compute; reflexivity|]. split; [|split; vm_compute; reflexivity].
  apply (bool_decide_unpack _). vm_compute. exact I.
Qed.

(** The calls of that run: the batches after the first are run to their
    end. *)
Example main_failing_env_calls :
  omap converting_call (log (main failing_env one_process_args empty_world).1)
  = [("in/cut0.zim", "out/cut0.zim"); ("in/b.zim", "out/b.zim");
     ("in/c.zim", "out/c.zim"); ("in/d.zim", "out/d.zim")].
Proof. vm_compute. reflexivity. Qed.

(** C6, as the code has it: [main] makes one task for every listed file, of
    the file in the input directory and the file of the same name in the
    output directory, and no task is called twice; when every worker returns
    a count, every task is called once, its output file is there afterwards,
    and the total reported is the sum of the counts; and a total is reported
    only then. *)
Theorem main_one_worker_per_file E args w :
  Forall (fun f => has_sep f = false) (listdir E (input_dir args)) ->
  1 <= processes args ->
  let names := listdir E (input_dir args) in
  let tasks := in_out_files E args in
  let w' := (main E args w).1 in
  (tasks = map (fun f => (op_join (input_dir args) f,
                          op_join (output_dir args) f)) names
   /\ forall f, f ∈ names -> basename (op_join (output_dir args) f) = f)
  /\ (exists called,
        omap converting_call (log w')
          ≡ₚ omap converting_call (log w) ++ called
        /\ called `sublist_of` tasks)
  /\ (forall counts,
        worker_results E args = Return <$> counts ->
        (main E args w).2 = Return tt
        /\ last (log w') = Some (Info_done (sum counts))
        /\ omap converting_call (log w')
             ≡ₚ omap converting_call (log w) ++ tasks
        /\ forall f, f ∈ names ->
                     is_Some (files w' !! op_join (output_dir args) f))
  /\ ((main E args w).2 = Return tt ->
      exists counts, worker_results E args = Return <$> counts).
Proof.
  intros Hnames Hproc names tasks w'.
  assert (Hp : processes args <> 0) by lia.
  set (w0 := log_call (Info_scheduled (length (in_out_files E args))) w).
  assert (Hw0 : omap converting_call (log w0) = omap converting_call (log w)).
  { unfold w0, log_call. simpl. apply omap_converting_call_snoc. reflexivity. }
  split; [|split; [|split]].
  - split; [reflexivity|]. intros f Hf.
    apply basename_op_join. rewrite Forall_forall in Hnames. auto.
  - subst w'. rewrite (main_eq E args w Hp). fold w0. simpl.
    destruct (run_batches_calls E (task_batches E args) w0) as (called & Hc & Hsub).
    rewrite (task_batches_concat E args Hp), Hw0 in *.
    exists called. split; [|exact Hsub].
    destruct (gather _); simpl.
    + unfold log_call. simpl. rewrite omap_converting_call_snoc by reflexivity.
      rewrite Hc. reflexivity.
    + rewrite Hc. reflexivity.
  - intros counts Hres. subst w'.
    destruct (main_all_return E args w counts Hp Hres) as [Hmain Hb].
    fold w0 in Hmain, Hb. rewrite Hmain. simpl.
    split; [reflexivity|]. split; [apply last_snoc|]. split.
    + rewrite omap_converting_call_snoc by reflexivity.
      destruct (run_batch_calls E (in_out_files E args) w0) as (called & Hc & _ & Hall).
      rewrite Hc, (Hall counts Hb), Hw0. reflexivity.
    + intros f Hf.
      apply (run_batch_files E (in_out_files E args) w0 counts
               (op_join (input_dir args) f) _ Hb).
      unfold in_out_files. apply list_elem_of_fmap. exists f. auto.
  - intros H. apply (main_return_inv E args w H).
Qed.

Lemma main_one_worker_per_file_witness :
  Forall (fun f => has_sep f = false) (listdir sample_env (input_dir sample_args))
  /\ 1 <= processes sample_args
  /\ last (log (main sample_env sample_args empty_world).1) = Some (Info_done 5).
Proof.
  assert (Hn : Forall (fun f => has_sep f = false)
                 (listdir sample_env (input_dir sample_args)))
    by (repeat constructor).
  assert (Hp : 1 <= processes sample_args) by (simpl; lia).
  split; [exact Hn|]. split; [exact Hp|].
  destruct (main_one_worker_per_file sample_env sample_args empty_world Hn Hp)
    as (_ & _ & H & _).
  apply (H [3; 2]). reflexivity.
Defined.

Example main_sample_files :
  files (main sample_env sample_args empty_world).1 !! "out/cut2.zim"
  = Some (converted_lines sample_env ["<p>a</p>"; "<p>b</p>"]).
Proof. vm_compute. reflexivity. Qed.

(** * Further properties *)

(** ** [get_title], case by case *)

Lemma get_title_loop_cases cs :
  (exists pre h post,
      cs = pre ++ h :: post /\ Forall passed_over pre /\ is_header h = true
      /\ get_title_loop cs = Return (get_text h))
  \/ (Forall passed_over cs
      /\ get_title_loop cs = Raise (ValueError "No header in section"))
  \/ (exists pre s post,
        cs = pre ++ s :: post /\ is_tag s = false /\ Forall passed_over pre
        /\ get_title_loop cs = Raise TypeError).
Proof.
  induction cs as [|c cs IH]; simpl.
  - right. left. split; [constructor | reflexivity].
  - destruct c as [text | n sub | text]; simpl.
    + right. right. exists [], (NavigableString text), cs.
      repeat split. constructor.
    + destruct (Re.match_ headerp n) eqn:Hn.
      * left. exists [], (Tag n sub), cs. repeat split; [constructor | exact Hn].
      * assert (Hc : passed_over (Tag n sub)) by (split; [reflexivity | exact Hn]).
        destruct IH as [(pre & h & post & -> & Hpre & Hh & Hr)
                       | [[Hall Hr] | (pre & s & post & -> & Hs & Hpre & Hr)]].
        -- left. exists (Tag n sub :: pre), h, post.
           repeat split; [constructor; assumption | exact Hh | exact Hr].
        -- right. left. split; [constructor; assumption | exact Hr].
        -- right. right. exists (Tag n sub :: pre), s, post.
           repeat split; [exact Hs | constructor; assumption | exact Hr].
    + right. right. exists [], (Comment text), cs.
      repeat split. constructor.
Qed.

(** A child that is not a tag, with no header before it: [TypeError]. *)
Lemma get_title_non_tag_child name pre s post :
  is_tag s = false ->
  Forall passed_over pre ->
  get_title (Tag name (pre ++ s :: post)) = Raise TypeError.
Proof.
  intros Hs Hpre. simpl. induction Hpre as [|c pre [Hc1 Hc2] _ IH]; simpl.
  - destruct s; [reflexivity | discriminate | reflexivity].
  - destruct c as [|n sub|]; [discriminate| |discriminate].
    simpl in *. rewrite Hc2. assumption.
Qed.

(** X1: [get_title] returns a title exactly when a header is found with only
    tags that are not headers before it, and the title is then the text of
    that header. *)
Theorem get_title_returns_iff (name : string) (cs : list PageElement) (t : string) :
  get_title (Tag name cs) = Return t <->
  exists pre h post,
    cs = pre ++ h :: post /\ Forall passed_over pre /\ is_header h = true
    /\ t = get_text h.
Proof.
  split.
  - simpl. intros H.
    destruct (get_title_loop_cases cs)
      as [(pre & h & post & Hcs & Hpre & Hh & Hr)
         | [[_ Hr] | (pre & s & post & _ & _ & _ & Hr)]];
      rewrite Hr in H; try discriminate.
    injection H as <-. eauto 10.
  - intros (pre & h & post & -> & Hpre & Hh & ->).
    apply get_title_first_header; assumption.
Qed.

(** X2: [get_title] raises the [ValueError] exactly when every child is a
    tag that is not a header; a section without children is such a case. *)
Theorem get_title_value_error_iff (name : string) (cs : list PageElement) :
  get_title (Tag name cs) = Raise (ValueError "No header in section") <->
  Forall passed_over cs.
Proof.
  split.
  - simpl. intros H.
    destruct (get_title_loop_cases cs)
      as [(pre & h & post & _ & _ & _ & Hr)
         | [[Hall _] | (pre & s & post & _ & _ & _ & Hr)]];
      [rewrite Hr in H; discriminate | exact Hall | rewrite Hr in H; discriminate].
  - intros H. apply get_title_no_header. exact H.
Qed.

(** X3: [get_title] raises [TypeError] exactly when a child that is not a
    tag, a string of any kind, is met among the children before any header. *)
Theorem get_title_type_error_iff (name : string) (cs : list PageElement) :
  get_title (Tag name cs) = Raise TypeError <->
  exists pre s post,
    cs = pre ++ s :: post /\ is_tag s = false /\ Forall passed_over pre.
Proof.
  split.
  - simpl. intros H.
    destruct (get_title_loop_cases cs)
      as [(pre & h & post & _ & _ & _ & Hr)
         | [[_ Hr] | (pre & s & post & Hcs & Hs & Hpre & _)]];
      [rewrite Hr in H; discriminate | rewrite Hr in H; discriminate | eauto 10].
  - intros (pre & s & post & -> & Hs & Hpre).
    apply get_title_non_tag_child; assumption.
Qed.

(** A comment inside the header is no part of the title. *)
Example get_title_skips_comment :
  get_title (Tag "section"
               [Tag "h2" [NavigableString "Title"; Comment " c "]])
  = Return "Title".
Proof. reflexivity. Qed.

Example get_title_titled_section : get_title titled_section = Return "History".
Proof. reflexivity. Qed.

(** ** [sections_backwards]: the body, and how many sections are found *)

(** [find_tag] finds nothing only when no tag of that name is there. *)
Lemma find_tag_none target e :
  forall pos0,
    find_tag target pos0 e = None ->
    forall p x, element_at e p = Some x -> element_name x <> Some target.
Proof.
  induction e as [s | n cs IH | s] using PageElement_ind'; intros pos0 H p x Hx.
  - destruct p; simpl in Hx; [|discriminate]. injection Hx as <-. discriminate.
  - rewrite find_tag_tag in H. destruct (String.eqb n target) eqn:Hn; [discriminate|].
    destruct p as [|i p]; simpl in Hx.
    + injection Hx as <-. simpl. intros Heq. injection Heq as ->.
      rewrite String.eqb_refl in Hn. discriminate.
    + destruct (cs !! i) as [c|] eqn:Hi; [|discriminate].
      assert (Hc : exists pos1, find_tag target pos1 c = None).
      { clear Hx IH. revert i Hi H. generalize 0 as k.
        induction cs as [|c' cs IHcs]; intros k i Hi H; [discriminate|].
        simpl in H.
        destruct (find_tag target (pos0 ++ [k]) c') as [r|] eqn:Hf; [discriminate|].
        destruct i as [|i]; simpl in Hi.
        - injection Hi as ->. eauto.
        - eapply IHcs; eauto. }
      destruct Hc as [pos1 Hc]. rewrite Forall_lookup in IH.
      exact (IH i c Hi pos1 Hc p x Hx).
  - destruct p; simpl in Hx; [|discriminate]. injection Hx as <-. discriminate.
Qed.

(** X4: on a document [sections_backwards] raises [AttributeError], yielding
    nothing, exactly when the document holds no tag named body. *)
Theorem sections_backwards_no_body_iff (cs : list PageElement) :
  sections_backwards (BeautifulSoup cs) = ([], Some AttributeError) <->
  forall p x,
    element_at (tree_root (BeautifulSoup cs)) p = Some x ->
    element_name x <> Some "body".
Proof.
  split.
  - intros H p x Hx.
    destruct (body cs) as [[pos b]|] eqn:Hbody.
    + rewrite (sections_backwards_document cs pos b Hbody) in H. discriminate.
    + exact (find_tag_none "body" _ [] Hbody p x Hx).
  - intros H. destruct (body cs) as [[pos b]|] eqn:Hbody.
    + destruct (body_sound cs pos b Hbody) as (_ & Hat & Hb).
      exfalso. exact (H pos b Hat Hb).
    + unfold sections_backwards. rewrite Hbody. reflexivity.
Qed.

Lemma count_sections_tag n cs :
  count_sections (Tag n cs) =
  (if String.eqb n "section" then 1 else 0) + count_sections_list cs.
Proof. reflexivity. Qed.

Lemma directly_nested_tag n cs :
  directly_nested (Tag n cs) = directly_nested_list cs.
Proof. reflexivity. Qed.

Lemma yields_count e :
  forall pos,
    length (sections_backwards_at pos e).1 <= count_sections e
    /\ (length (sections_backwards_at pos e).1 = count_sections e
        <-> directly_nested e = true).
Proof.
  induction e as [s | n cs IH | s] using PageElement_ind'; intros pos.
  - simpl. split; [lia | tauto].
  - rewrite yields_tag, length_app, count_sections_tag, directly_nested_tag.
    assert (Hloop : forall i,
              length (sections_loop pos i cs).1 <= count_sections_list cs
              /\ (length (sections_loop pos i cs).1 = count_sections_list cs
                  <-> directly_nested_list cs = true)).
    { induction IH as [|c cs Hc _ IHcs]; intros i.
      - simpl. split; [lia | tauto].
      - rewrite yields_loop_cons, length_app. simpl.
        destruct (IHcs (S i)) as [Hle Hiff].
        destruct (Hc (pos ++ [i])) as [Hcle Hciff].
        rewrite andb_true_iff.
        destruct (is_section c).
        + split; [lia|]. rewrite <- Hciff, <- Hiff. lia.
        + simpl. rewrite Nat.eqb_eq, <- Hiff. split; [lia | lia]. }
    destruct (Hloop 0) as [Hle Hiff].
    destruct (String.eqb n "section"); simpl; rewrite <- Hiff; split; lia.
  - simpl. split; [lia | tauto].
Qed.

(** X5: [sections_backwards] never yields more elements than the tree has
    sections, and it yields as many exactly when every section lies directly
    in a section or directly in the root. *)
Theorem sections_backwards_count (e : PageElement) :
  length (sections_backwards (Element e)).1 <= count_sections e
  /\ (length (sections_backwards (Element e)).1 = count_sections e
      <-> directly_nested e = true).
Proof. apply yields_count. Qed.

Example sections_backwards_count_samples :
  length (sections_backwards (Element nested_body)).1 = count_sections nested_body
  /\ length (sections_backwards (Element div_body)).1 < count_sections div_body.
Proof. split; vm_compute; lia. Qed.

(** ** [convert_to_json]: what is returned against what is written *)

Lemma pages_split E pages :
  Forall (converts E) pages
  \/ exists pre h post e,
       pages = pre ++ h :: post /\ Forall (converts E) pre
       /\ parse_prettify E h = Raise e.
Proof.
  induction pages as [|h pages IH].
  - left. constructor.
  - destruct (parse_prettify E h) as [wp | e] eqn:Hh.
    + destruct IH as [IH | (pre & h' & post & e & -> & Hpre & Hh')].
      * left. constructor; [exists wp; exact Hh | exact IH].
      * right. exists (h :: pre), h', post, e.
        repeat split; [constructor; [exists wp; exact Hh | exact Hpre] | exact Hh'].
    + right. exists [], h, pages, e. repeat split; [constructor | exact Hh].
Qed.

Lemma converted_lines_length E pages :
  Forall (converts E) pages -> length (converted_lines E pages) = length pages.
Proof.
  intros H. symmetry. eapply Forall2_length. apply converted_lines_all. exact H.
Qed.

Lemma converted_lines_failure E pre h post e :
  Forall (converts E) pre -> parse_prettify E h = Raise e ->
  converted_lines E (pre ++ h :: post) = converted_lines E pre.
Proof.
  intros Hpre Hh. induction Hpre as [|h' pre [wp Hh'] _ IH]; simpl.
  - rewrite Hh. reflexivity.
  - rewrite Hh', IH. reflexivity.
Qed.

(** The value of a call on an archive whose pages all convert. *)
Lemma convert_to_json_result_all E i o w pages ending :
  gzip_open E o = None ->
  enumerate_static_dump E i = (pages, ending) ->
  Forall (converts E) pages ->
  (convert_to_json E i o w).2 =
  match pages, ending with
  | [], _ => Raise UnboundLocalError
  | _ :: _, None => Return (length pages)
  | _ :: _, Some EOFError => Return (length pages)
  | _ :: _, Some e => Raise e
  end.
Proof.
  intros Hopen Hr Hall. rewrite (convert_to_json_opened E i o w Hopen), Hr.
  rewrite (for_loop_all_convert E pages 1 ending None [] Hall).
  unfold leave_try. destruct pages as [|h pages]; simpl.
  - destruct ending as [e|]; [destruct e|]; reflexivity.
  - destruct ending as [e|]; [destruct e|]; reflexivity.
Qed.

(** The value of a call on an archive with a page that does not convert. *)
Lemma convert_to_json_result_failure E i o w pre h post ending e :
  gzip_open E o = None ->
  enumerate_static_dump E i = (pre ++ h :: post, ending) ->
  Forall (converts E) pre ->
  parse_prettify E h = Raise e ->
  (convert_to_json E i o w).2 =
  match e with
  | EOFError => Return (S (length pre))
  | _ => Raise e
  end.
Proof.
  intros Hopen Hr Hpre Hh. rewrite (convert_to_json_opened E i o w Hopen), Hr.
  rewrite (for_loop_failure E pre h post e 1 ending None [] Hpre Hh).
  unfold leave_try. destruct e; reflexivity.
Qed.

(** The last record a call logs, by the way the loop is left. *)
Lemma convert_to_json_last_log E i o w d outf raised n :
  gzip_open E o = None ->
  for_loop E (enumerate (enumerate_static_dump E i).1 1)
    (enumerate_static_dump E i).2 None [] = (d, outf, raised) ->
  d = Some n ->
  last (log (convert_to_json E i o w).1) =
  Some match raised with
       | None => Debug_converted n i o
       | Some EOFError => Error_eof EOFError
       | Some e => Exception_in i n e
       end.
Proof.
  intros Hopen Hl ->. rewrite (convert_to_json_opened E i o w Hopen).
  destruct (enumerate_static_dump E i) as [pages ending]. simpl in Hl.
  rewrite Hl. unfold leave_try.
  destruct raised as [e|]; [destruct e|]; simpl; apply last_snoc.
Qed.

(** A call returns a count when no conversion raises [EOFError]: every page
    of the archive was converted, and the count is their number. *)
Lemma convert_to_json_count_lines E i o w n :
  (forall h, parse_prettify E h <> Raise EOFError) ->
  (convert_to_json E i o w).2 = Return n ->
  n = length (enumerate_static_dump E i).1
  /\ Forall (converts E) (enumerate_static_dump E i).1.
Proof.
  intros Hno H.
  pose proof (convert_to_json_return_opened E i o w n H) as Hopen.
  destruct (enumerate_static_dump E i) as [pages ending] eqn:Hr. simpl.
  destruct (pages_split E pages) as [Hall | (pre & h & post & e & -> & Hpre & Hh)].
  - rewrite (convert_to_json_result_all E i o w pages ending Hopen Hr Hall) in H.
    destruct pages as [|h pages]; [discriminate|].
    split; [|exact Hall].
    destruct ending as [e|]; [destruct e|]; try discriminate;
      injection H as <-; reflexivity.
  - rewrite (convert_to_json_result_failure E i o w pre h post ending e
               Hopen Hr Hpre Hh) in H.
    destruct e; try discriminate. exfalso. exact (Hno h Hh).
Qed.

(** X6: when no conversion raises [EOFError], a call that returns [n] has
    read the whole archive, and the output file holds [n] lines, one for each
    page, in the order of the reader. *)
Theorem convert_to_json_returns_line_count
    (E : Env) (i o : string) (w : world) (n : nat) :
  (forall h, parse_prettify E h <> Raise EOFError) ->
  (convert_to_json E i o w).2 = Return n ->
  exists lines,
    files (convert_to_json E i o w).1 !! o = Some lines
    /\ length lines = n
    /\ Forall2 (line_for E) (enumerate_static_dump E i).1 lines.
Proof.
  intros Hno H.
  pose proof (convert_to_json_return_opened E i o w n H) as Hopen.
  destruct (convert_to_json_count_lines E i o w n Hno H) as [-> Hall].
  exists (converted_lines E (enumerate_static_dump E i).1).
  split; [apply convert_to_json_file; exact Hopen|].
  split; [apply converted_lines_length; exact Hall|].
  apply converted_lines_all. exact Hall.
Qed.

Lemma sample_env_no_eof h : parse_prettify sample_env h <> Raise EOFError.
Proof. simpl. destruct (String.eqb h "bad"); discriminate. Qed.

Lemma convert_to_json_returns_line_count_witness :
  exists lines,
    files (convert_to_json sample_env "in/full.zim" "out/full.zim"
             empty_world).1 !! "out/full.zim" = Some lines
    /\ length lines = 3
    /\ Forall2 (line_for sample_env)
         (enumerate_static_dump sample_env "in/full.zim").1 lines.
Proof.
  apply (convert_to_json_returns_line_count sample_env "in/full.zim"
           "out/full.zim" empty_world 3 sample_env_no_eof).
  reflexivity.
Defined.

(** X7: with the output file open, an [EOFError] raised while a page is
    converted is taken for the end of the archive: the call returns the
    number of that page, and the file holds one line less, for the pages
    before it. *)
Theorem convert_to_json_eof_while_converting
    (E : Env) (i o : string) (w : world) (pre : list string) (h : string)
    (post : list string) (ending : option exn) :
  gzip_open E o = None ->
  enumerate_static_dump E i = (pre ++ h :: post, ending) ->
  Forall (converts E) pre ->
  parse_prettify E h = Raise EOFError ->
  (convert_to_json E i o w).2 = Return (S (length pre))
  /\ exists lines,
       files (convert_to_json E i o w).1 !! o = Some lines
       /\ length lines = length pre
       /\ Forall2 (line_for E) pre lines.
Proof.
  intros Hopen Hr Hpre Hh. split.
  - rewrite (convert_to_json_result_failure E i o w pre h post ending EOFError
               Hopen Hr Hpre Hh).
    reflexivity.
  - exists (converted_lines E pre).
    rewrite (convert_to_json_file E i o w Hopen), Hr. simpl.
    rewrite (converted_lines_failure E pre h post EOFError Hpre Hh).
    split; [reflexivity|].
    split; [apply converted_lines_length; exact Hpre|].
    apply converted_lines_all. exact Hpre.
Qed.

Lemma convert_to_json_eof_while_converting_witness :
  (convert_to_json eof_env "in/a.zim" "out/a.zim" empty_world).2 = Return 2
  /\ exists lines,
       files (convert_to_json eof_env "in/a.zim" "out/a.zim" empty_world).1
         !! "out/a.zim" = Some lines
       /\ length lines = 1
       /\ Forall2 (line_for eof_env) ["<p>a</p>"] lines.
Proof.
  apply (convert_to_json_eof_while_converting eof_env "in/a.zim" "out/a.zim"
           empty_world ["<p>a</p>"] "cut" ["<p>c</p>"] None).
  - reflexivity.
  - reflexivity.
  - repeat constructor. exists "<p>a</p>". reflexivity.
  - reflexivity.
Defined.

(** X8: with the output file open, an archive that is read to its end, with
    at least one page and every page converting: the call returns the number
    of pages, the file holds one line for each page, in order, and the last
    record logged is the count. *)
Theorem convert_to_json_complete
    (E : Env) (i o : string) (w : world) (pages : list string) :
  gzip_open E o = None ->
  enumerate_static_dump E i = (pages, None) ->
  pages <> [] ->
  Forall (converts E) pages ->
  (convert_to_json E i o w).2 = Return (length pages)
  /\ (exists lines,
         files (convert_to_json E i o w).1 !! o = Some lines
         /\ Forall2 (line_for E) pages lines)
  /\ last (log (convert_to_json E i o w).1)
     = Some (Debug_converted (length pages) i o).
Proof.
  intros Hopen Hr Hne Hall. split; [|split].
  - rewrite (convert_to_json_result_all E i o w pages None Hopen Hr Hall).
    destruct pages; [congruence | reflexivity].
  - exists (converted_lines E pages).
    rewrite (convert_to_json_file E i o w Hopen), Hr.
    split; [reflexivity | apply converted_lines_all; exact Hall].
  - pose proof (for_loop_all_convert E pages 1 None None [] Hall) as Hl.
    destruct pages as [|h pages]; [congruence|].
    rewrite (convert_to_json_last_log E i o w
               (Some (1 + length (h :: pages) - 1))
               ([] ++ converted_lines E (h :: pages)) None
               (length (h :: pages)) Hopen).
    + reflexivity.
    + rewrite Hr. exact Hl.
    + simpl. reflexivity.
Qed.

Lemma convert_to_json_complete_witness :
  (convert_to_json sample_env "in/full.zim" "out/full.zim" empty_world).2
  = Return 3.
Proof.
  apply (convert_to_json_complete sample_env "in/full.zim" "out/full.zim"
           empty_world ["<p>a</p>"; "<p>b</p>"; "<p>c</p>"]).
  - reflexivity.
  - reflexivity.
  - discriminate.
  - repeat constructor; eexists; reflexivity.
Defined.

(** X9: with the output file open, a page that fails to convert, for a reason
    other than [EOFError], makes the call raise that exception; the file
    stays in place with the lines of the pages before it, and the last record
    logged names the archive and the number of the page. *)
Theorem convert_to_json_fatal_keeps_partial_file
    (E : Env) (i o : string) (w : world) (pre : list string) (h : string)
    (post : list string) (ending : option exn) (e : exn) :
  gzip_open E o = None ->
  enumerate_static_dump E i = (pre ++ h :: post, ending) ->
  Forall (converts E) pre ->
  parse_prettify E h = Raise e ->
  e <> EOFError ->
  (convert_to_json E i o w).2 = Raise e
  /\ (exists lines,
         files (convert_to_json E i o w).1 !! o = Some lines
         /\ Forall2 (line_for E) pre lines)
  /\ last (log (convert_to_json E i o w).1)
     = Some (Exception_in i (S (length pre)) e).
Proof.
  intros Hopen Hr Hpre Hh He. split; [|split].
  - rewrite (convert_to_json_result_failure E i o w pre h post ending e
               Hopen Hr Hpre Hh).
    destruct e; congruence.
  - exists (converted_lines E pre).
    rewrite (convert_to_json_file E i o w Hopen), Hr. simpl.
    rewrite (converted_lines_failure E pre h post e Hpre Hh).
    split; [reflexivity | apply converted_lines_all; exact Hpre].
  - pose proof (for_loop_failure E pre h post e 1 ending None [] Hpre Hh) as Hl.
    rewrite (convert_to_json_last_log E i o w (Some (S (length pre)))
               ([] ++ converted_lines E pre) (Some e) (S (length pre)) Hopen).
    + destruct e; congruence.
    + rewrite Hr. exact Hl.
    + reflexivity.
Qed.

Lemma convert_to_json_fatal_keeps_partial_file_witness :
  (convert_to_json sample_env "in/bad2.zim" "out/bad2.zim" empty_world).2
  = Raise (ValueError "No header in section")
  /\ (exists lines,
         files (convert_to_json sample_env "in/bad2.zim" "out/bad2.zim"
                  empty_world).1 !! "out/bad2.zim" = Some lines
         /\ Forall2 (line_for sample_env) ["<p>a</p>"] lines)
  /\ last (log (convert_to_json sample_env "in/bad2.zim" "out/bad2.zim"
                  empty_world).1)
     = Some (Exception_in "in/bad2.zim" 2 (ValueError "No header in section")).
Proof.
  apply (convert_to_json_fatal_keeps_partial_file sample_env "in/bad2.zim"
           "out/bad2.zim" empty_world ["<p>a</p>"] "bad" ["<p>c</p>"] None).
  - reflexivity.
  - reflexivity.
  - repeat constructor. eexists. reflexivity.
  - reflexivity.
  - discriminate.
Defined.

(** X10: a call whose output file opens overwrites it: what the file held
    before the call has no effect on the files after it, and calling twice
    leaves the files as calling once does. *)
Theorem convert_to_json_overwrites
    (E : Env) (i o : string) (w : world) (old : list string) :
  gzip_open E o = None ->
  files (convert_to_json E i o (World (<[o := old]> (files w)) (log w))).1
  = files (convert_to_json E i o w).1
  /\ files (convert_to_json E i o (convert_to_json E i o w).1).1
     = files (convert_to_json E i o w).1.
Proof.
  intros Hopen. rewrite !(convert_to_json_files E i o _ Hopen). simpl.
  rewrite !insert_insert_eq. auto.
Qed.

Lemma convert_to_json_overwrites_witness :
  files (convert_to_json sample_env "in/full.zim" "out/full.zim"
           (World (<["out/full.zim" := ["old"]]> (files empty_world))
              (log empty_world))).1
  = files (convert_to_json sample_env "in/full.zim" "out/full.zim"
             empty_world).1.
Proof.
  apply (convert_to_json_overwrites sample_env "in/full.zim" "out/full.zim"
           empty_world ["old"]).
  reflexivity.
Defined.

(** Opened for writing, the file loses what it held: without that the lines
    would come after the old ones. *)
Example close_file_appends :
  files (close_file "out/a" ["new"] (World {["out/a" := ["old"]]} []))
    !! "out/a" = Some ["old"; "new"].
Proof. vm_compute. reflexivity. Qed.

(** ** [main]: the files it writes and the total it reports *)

Lemma main_files E args w :
  files (main E args w).1 =
  files (run_batches (convert_to_json E) (task_batches E args)
           (log_call (Info_scheduled (length (in_out_files E args))) w)).1
  \/ files (main E args w).1 = files w.
Proof.
  destruct (decide (processes args = 0)) as [Hp | Hp].
  - right. unfold main. rewrite Hp. reflexivity.
  - left. rewrite (main_eq E args w Hp). simpl.
    destruct (gather _); reflexivity.
Qed.

(** With output files that are pairwise different, each holds after a batch
    that returns what its own call wrote. *)
Lemma run_batch_file_content E batch w counts i o :
  (run_batch (convert_to_json E) batch w).2 = Return counts ->
  NoDup batch.*2 ->
  (i, o) ∈ batch ->
  files (run_batch (convert_to_json E) batch w).1 !! o
  = Some (converted_lines E (enumerate_static_dump E i).1).
Proof.
  revert w counts.
  induction batch as [|[i' o'] batch IH]; intros w counts Hret Hnd Hin.
  - apply elem_of_nil in Hin. tauto.
  - rewrite fmap_cons, NoDup_cons in Hnd. destruct Hnd as [Hnot Hnd].
    simpl in Hnot. simpl in *.
    pose proof (convert_to_json_return_opened E i' o' w) as Hopen.
    pose proof (convert_to_json_file E i' o' w) as Hfile.
    destruct (convert_to_json E i' o' w) as [w1 [a | e]]; [|discriminate].
    simpl in *. specialize (Hfile (Hopen a eq_refl)).
    pose proof (run_batch_frame E batch w1 o' Hnot) as Hframe.
    specialize (IH w1).
    destruct (run_batch (convert_to_json E) batch w1) as [w2 [l | e]];
      [|discriminate].
    simpl in *. apply elem_of_cons in Hin as [Heq | Hin].
    + injection Heq as -> ->. congruence.
    + eapply IH; eauto.
Qed.

(** X12: [main] touches no file other than the files of the listed names in
    the output directory; with an empty listing it touches none. *)
Theorem main_frame (E : Env) (args : Args) (w : world) (path : string) :
  (forall f, f ∈ listdir E (input_dir args) ->
             path <> op_join (output_dir args) f) ->
  files (main E args w).1 !! path = files w !! path.
Proof.
  intros Hpath. destruct (decide (processes args = 0)) as [Hp | Hp].
  - unfold main. rewrite Hp. reflexivity.
  - destruct (main_files E args w) as [H | H]; rewrite H; [|reflexivity].
    rewrite run_batches_frame; [reflexivity|].
    rewrite (task_batches_concat E args Hp).
    unfold in_out_files. rewrite <- list_fmap_compose. intros Hin.
    apply list_elem_of_fmap in Hin as (f & Heq & Hf). simpl in Heq.
    exact (Hpath f Hf Heq).
Qed.

Lemma main_frame_witness :
  files (main sample_env sample_args empty_world).1 !! "in/full.zim" = None.
Proof.
  apply (main_frame sample_env sample_args empty_world "in/full.zim").
  intros f Hf. simpl in Hf.
  apply elem_of_cons in Hf as [-> | Hf]; [discriminate|].
  apply elem_of_cons in Hf as [-> | Hf]; [discriminate|].
  apply elem_of_nil in Hf. tauto.
Defined.

(** Names without a separator are joined to different paths when they
    differ. *)
Lemma op_join_inj d f1 f2 :
  has_sep f1 = false -> has_sep f2 = false ->
  op_join d f1 = op_join d f2 -> f1 = f2.
Proof.
  intros H1 H2 Heq.
  rewrite <- (basename_op_join d f1 H1), <- (basename_op_join d f2 H2), Heq.
  reflexivity.
Qed.

Lemma in_out_files_nodup E args :
  NoDup (listdir E (input_dir args)) ->
  Forall (fun f => has_sep f = false) (listdir E (input_dir args)) ->
  NoDup (in_out_files E args).*1 /\ NoDup (in_out_files E args).*2.
Proof.
  intros Hnd Hsep. rewrite Forall_forall in Hsep.
  unfold in_out_files. rewrite <- !list_fmap_compose.
  split; (apply NoDup_fmap_2_strong; [|exact Hnd]);
    intros f1 f2 H1 H2 Heq; simpl in Heq;
    eapply op_join_inj; eauto.
Qed.

(** X13: for a listing of different names, none with a separator in it, the
    output files of [in_out_files] are pairwise different, and so are the
    input files: no two workers read or write the same file. *)
Theorem in_out_files_distinct (E : Env) (args : Args) :
  NoDup (listdir E (input_dir args)) ->
  Forall (fun f => has_sep f = false) (listdir E (input_dir args)) ->
  NoDup (in_out_files E args).*1 /\ NoDup (in_out_files E args).*2.
Proof. apply in_out_files_nodup. Qed.

Lemma in_out_files_distinct_witness :
  NoDup (in_out_files sample_env sample_args).*1
  /\ NoDup (in_out_files sample_env sample_args).*2.
Proof.
  apply (in_out_files_distinct sample_env sample_args).
  - simpl. apply NoDup_cons. split.
    + intros H. apply list_elem_of_singleton in H. discriminate.
    + apply NoDup_singleton.
  - repeat constructor.
Defined.

(** X14: for a listing of different names, none with a separator in it, and
    a converter that never raises [EOFError]: when [main] returns, the total
    it reports is the sum of counts, one for each listed name, each the
    number of lines in that name's output file. *)
Theorem main_total_is_lines (E : Env) (args : Args) (w : world) :
  NoDup (listdir E (input_dir args)) ->
  Forall (fun f => has_sep f = false) (listdir E (input_dir args)) ->
  (forall h, parse_prettify E h <> Raise EOFError) ->
  (main E args w).2 = Return tt ->
  exists counts,
    last (log (main E args w).1) = Some (Info_done (sum counts))
    /\ Forall2
         (fun f n =>
            exists lines,
              files (main E args w).1 !! op_join (output_dir args) f = Some lines
              /\ length lines = n)
         (listdir E (input_dir args)) counts.
Proof.
  intros Hnd Hsep Hno Hret.
  destruct (in_out_files_nodup E args Hnd Hsep) as [_ Hout].
  destruct (main_return_inv E args w Hret) as (Hp & counts & Hres).
  destruct (main_all_return E args w counts Hp Hres) as [Hmain Hb].
  set (w0 := log_call (Info_scheduled (length (in_out_files E args))) w) in *.
  set (tasks := in_out_files E args) in *.
  exists counts. rewrite Hmain. simpl. split; [apply last_snoc|].
  apply Forall2_same_length_lookup. split.
  - apply (f_equal length) in Hres.
    unfold worker_results in Hres.
    rewrite length_fmap, length_map in Hres. exact Hres.
  - intros k f n Hf Hn.
    set (i := op_join (input_dir args) f).
    set (o := op_join (output_dir args) f).
    assert (Htask : tasks !! k = Some (i, o)).
    { unfold tasks, in_out_files. change (map ?g ?l) with (g <$> l).
      rewrite list_lookup_fmap, Hf. reflexivity. }
    assert (Hk : (convert_to_json E i o w0).2 = Return n).
    { apply (f_equal (fun l => l !! k)) in Hres.
      rewrite list_lookup_fmap, Hn in Hres.
      unfold worker_results in Hres.
      change (map ?g ?l) with (g <$> l) in Hres.
      rewrite list_lookup_fmap, Hf in Hres. simpl in Hres.
      injection Hres as Hres.
      rewrite (convert_to_json_result E i o w0 empty_world). exact Hres. }
    destruct (convert_to_json_count_lines E i o w0 n Hno Hk) as [Hlen Hall].
    exists (converted_lines E (enumerate_static_dump E i).1). split.
    + apply (run_batch_file_content E tasks w0 counts i o Hb Hout).
      eapply list_elem_of_lookup_2. exact Htask.
    + rewrite converted_lines_length by exact Hall. symmetry. exact Hlen.
Qed.

Lemma main_total_is_lines_witness :
  exists counts,
    last (log (main sample_env sample_args empty_world).1)
    = Some (Info_done (sum counts))
    /\ Forall2
         (fun f n =>
            exists lines,
              files (main sample_env sample_args empty_world).1
                !! op_join (output_dir sample_args) f = Some lines
              /\ length lines = n)
         (listdir sample_env (input_dir sample_args)) counts.
Proof.
  apply (main_total_is_lines sample_env sample_args empty_world).
  - simpl. apply NoDup_cons. split.
    + intros H. apply list_elem_of_singleton in H. discriminate.
    + apply NoDup_singleton.
  - repeat constructor.
  - exact sample_env_no_eof.
  - reflexivity.
Defined.

(** ** More on [sections_backwards] and [convert_to_json] *)

Lemma sections_loop_no_section pos i cs :
  Forall (fun c => is_section c = false) cs -> (sections_loop pos i cs).1 = [].
Proof.
  intros H. revert i. induction H as [|c cs Hc _ IH]; intros i; [reflexivity|].
  rewrite yields_loop_cons, IH, Hc. reflexivity.
Qed.

(** X15: on a document whose top level holds no section, as in every
    document with an html element at the top, [sections_backwards] yields
    what it yields on the body of the document, position for position. *)
Theorem sections_backwards_document_is_body
    (cs : list PageElement) (pos : position) (b : PageElement) :
  body cs = Some (pos, b) ->
  Forall (fun c => is_section c = false) cs ->
  sections_backwards (BeautifulSoup cs)
  = (prod_map (app pos) id <$> (sections_backwards (Element b)).1, None)
  /\ (sections_backwards (Element b)).2 = None.
Proof.
  intros Hbody Htop. split.
  - rewrite (sections_backwards_document cs pos b Hbody).
    rewrite yields_tag, (sections_loop_no_section [] 0 cs Htop).
    simpl. rewrite app_nil_r. reflexivity.
  - destruct (body_sound cs pos b Hbody) as (_ & _ & Hb).
    apply sections_backwards_at_no_raise.
    destruct b; [discriminate | reflexivity | discriminate].
Qed.

Lemma sections_backwards_document_is_body_witness :
  (sections_backwards sample_document).1.*1
  = app [0; 1] <$> [[2]; [0; 1]; [0]].
Proof.
  unfold sample_document.
  match goal with
  | |- context [BeautifulSoup ?cs] =>
      destruct (sections_backwards_document_is_body cs [0; 1] sample_body)
        as [H _]; [reflexivity | repeat constructor | rewrite H; reflexivity]
  end.
Defined.

(** X16: a count that is returned is at least 1 and at most the number of
    pages of the archive, and the output file holds as many lines or one line
    less. *)
Theorem convert_to_json_count_bounds
    (E : Env) (i o : string) (w : world) (n : nat) :
  (convert_to_json E i o w).2 = Return n ->
  1 <= n <= length (enumerate_static_dump E i).1
  /\ exists lines,
       files (convert_to_json E i o w).1 !! o = Some lines
       /\ (length lines = n \/ S (length lines) = n).
Proof.
  intros H.
  pose proof (convert_to_json_return_opened E i o w n H) as Hopen.
  rewrite (convert_to_json_file E i o w Hopen).
  destruct (enumerate_static_dump E i) as [pages ending] eqn:Hr. simpl.
  destruct (pages_split E pages) as [Hall | (pre & h & post & e & -> & Hpre & Hh)].
  - rewrite (convert_to_json_result_all E i o w pages ending Hopen Hr Hall) in H.
    destruct pages as [|h pages]; [discriminate|].
    assert (n = length (h :: pages)) as ->
      by (destruct ending as [e|]; [destruct e|]; try discriminate;
          injection H as <-; reflexivity).
    split; [simpl; lia|].
    exists (converted_lines E (h :: pages)). split; [reflexivity|].
    left. apply converted_lines_length. exact Hall.
  - rewrite (convert_to_json_result_failure E i o w pre h post ending e
               Hopen Hr Hpre Hh) in H.
    destruct e; try discriminate. injection H as <-.
    split; [rewrite length_app; simpl; lia|].
    exists (converted_lines E (pre ++ h :: post)). split; [reflexivity|].
    right. rewrite (converted_lines_failure E pre h post EOFError Hpre Hh).
    f_equal. apply converted_lines_length. exact Hpre.
Qed.

Lemma convert_to_json_count_bounds_witness :
  1 <= 2 <= length (enumerate_static_dump sample_env "in/cut2.zim").1
  /\ exists lines,
       files (convert_to_json sample_env "in/cut2.zim" "out/cut2.zim"
                empty_world).1 !! "out/cut2.zim" = Some lines
       /\ (length lines = 2 \/ S (length lines) = 2).
Proof.
  apply (convert_to_json_count_bounds sample_env "in/cut2.zim" "out/cut2.zim"
           empty_world 2).
  reflexivity.
Defined.

(** X17: with the output file open, an archive that is truncated after at
    least one page, every page before the truncation converting: the call
    returns the number of those pages, the file holds one line for each, in
    order, and the [EOFError] is the last record logged. *)
Theorem convert_to_json_truncated_after_pages
    (E : Env) (i o : string) (w : world) (pages : list string) :
  gzip_open E o = None ->
  enumerate_static_dump E i = (pages, Some EOFError) ->
  pages <> [] ->
  Forall (converts E) pages ->
  (convert_to_json E i o w).2 = Return (length pages)
  /\ (exists lines,
         files (convert_to_json E i o w).1 !! o = Some lines
         /\ Forall2 (line_for E) pages lines)
  /\ last (log (convert_to_json E i o w).1) = Some (Error_eof EOFError).
Proof.
  intros Hopen Hr Hne Hall.
  destruct (convert_to_json_truncated E i o w pages Hopen Hr Hne Hall) as [H1 H2].
  split; [exact H1|]. split; [exact H2|].
  pose proof (for_loop_all_convert E pages 1 (Some EOFError) None [] Hall) as Hl.
  destruct pages as [|h pages]; [congruence|].
  rewrite (convert_to_json_last_log E i o w
             (Some (1 + length (h :: pages) - 1))
             ([] ++ converted_lines E (h :: pages)) (Some EOFError)
             (length (h :: pages)) Hopen).
  - reflexivity.
  - rewrite Hr. exact Hl.
  - simpl. reflexivity.
Qed.

Lemma convert_to_json_truncated_after_pages_witness :
  (convert_to_json sample_env "in/cut2.zim" "out/cut2.zim" empty_world).2
  = Return 2.
Proof.
  apply (convert_to_json_truncated_after_pages sample_env "in/cut2.zim"
           "out/cut2.zim" empty_world ["<p>a</p>"; "<p>b</p>"]).
  - reflexivity.
  - reflexivity.
  - discriminate.
  - repeat constructor; eexists; reflexivity.
Defined.

